(** * fission-workflows: event-store error type, notifications, scheduler
      schedule and bundle wiring

    A shallow embedding of
      - [pkg/fes/types.go]            (module [fes]),
      - the scheduler's protocol file (module [scheduler]),
      - [cmd/fission-workflows-bundle/bundle/bundle.go] (module [bundle]),
      - the chart values              (module [chart]),
    followed by the properties established about them.

    Conventions.  Go pointers to objects that are mutated in place
    ([*EventStoreErr], the objects behind the [Entity] interface) are
    locations of an explicit heap; a nil pointer is [None].  Pointers to
    records that are never written by the code under study ([*Aggregate],
    [*Event], the configuration structs) are modelled by the record itself,
    nil again being [None].  A computation that dereferences nil panics;
    panics are the [None] result of the heap monad [Go]. *)

From Stdlib Require Import ZArith QArith String List Bool.
From stdpp Require Import base option gmap strings list fin_maps.

Local Open Scope string_scope.
Local Open Scope positive_scope.

(** ** A heap monad for pointer receivers *)

Definition loc := positive.

(** [Go H A]: a computation over a heap of type [H] that either panics
    ([None]) or returns a value together with the new heap. *)
Definition Go (H A : Type) : Type := H -> option (A * H).

Definition go_ret {H A} (a : A) : Go H A := fun h => Some (a, h).

Definition go_bind {H A B} (m : Go H A) (k : A -> Go H B) : Go H B :=
  fun h => match m h with
           | Some (a, h') => k a h'
           | None => None
           end.

Definition go_panic {H A} : Go H A := fun _ => None.

Declare Scope go_scope.
Delimit Scope go_scope with go.
Notation "'let*' x ':=' m 'in' k" := (go_bind m (fun x => k))
  (at level 10, x name, m at level 100, k at level 200) : go_scope.
Notation "m '>>' k" := (go_bind m (fun _ => k))
  (at level 90, right associativity) : go_scope.

(** Dereference of a pointer: nil (and a location outside the heap) panics. *)
Definition deref {V} (p : option loc) : Go (gmap loc V) V :=
  fun h => match p with
           | Some l => match h !! l with
                       | Some v => Some (v, h)
                       | None => None
                       end
           | None => None
           end.

(** Write through a pointer that has been dereferenced already. *)
Definition assign {V} (p : option loc) (v : V) : Go (gmap loc V) unit :=
  fun h => match p with
           | Some l => Some (tt, <[l := v]> h)
           | None => None
           end.

(** Allocation of a fresh object. *)
Definition alloc {V} (v : V) : Go (gmap loc V) loc :=
  fun h => let l := fresh (dom h) in Some (l, <[l := v]> h).

(** ** Package [fes] *)

Module fes.

(** Modelled from the spec: the [Aggregate] message (identity of an event
    stream, attributes [type] and [id]) is declared in generated code that
    is not part of the sources at hand. *)
Record Aggregate := mkAggregate { Aggregate_Id : string; Aggregate_Type : string }.

#[global] Instance Aggregate_eq_dec : EqDecision Aggregate.
Proof. solve_decision. Defined.

(** Modelled from the spec: aggregate encoding [<type>/<id>]. *)
Definition Aggregate_Format (a : Aggregate) : string :=
  Aggregate_Type a ++ "/" ++ Aggregate_Id a.

(** Modelled from the spec: the [Event] message.  [types.go] reads the
    fields [Type], [Aggregate] and [Metadata]; the remaining attributes are
    those of the data model ([parent], payload, creation time).  A nil
    [Metadata] map is [None]. *)
Record Event := mkEvent {
  Event_Type : string;
  Event_Aggregate : option Aggregate;
  Event_Parent : option Aggregate;
  Event_Data : string;
  Event_Metadata : option (gmap string string);
  Event_Timestamp : Z
}.

#[global] Instance Event_eq_dec : EqDecision Event.
Proof. solve_decision. Defined.

(** Values of Go's [error] interface, by dynamic type: the nil interface,
    a [*EventStoreErr] (whose pointer may itself be nil), or anything else. *)
Inductive error :=
| nil_error
| es_error (p : option loc)
| other_error (msg : string).

#[global] Instance error_eq_dec : EqDecision error.
Proof. solve_decision. Defined.

(** Modelled from the spec: the label key under which an event's aggregate
    type is published ([aggregate.type]); the constant is declared elsewhere
    in the package. *)
Definition PubSubLabelAggregateType : string := "aggregate.type".

(** [type StringMatcher func(target string) bool] *)
Definition StringMatcher := string -> bool.

Definition DefaultNotificationBuffer : Z := 64.

(** *** [EventStoreErr] *)

Module EventStoreErr.

Record t := mk {
  S : string;            (* description of the error (required) *)
  K : option Aggregate;  (* aggregate related to the error (optional) *)
  E : option Event;      (* event related to the error (optional) *)
  C : error              (* underlying cause of the error (optional) *)
}.

#[global] Instance t_eq_dec : EqDecision t.
Proof. solve_decision. Defined.

Definition set_K (k : option Aggregate) (e : t) : t := mk (S e) k (E e) (C e).
Definition set_E (v : option Event) (e : t) : t := mk (S e) (K e) v (C e).
Definition set_C (c : error) (e : t) : t := mk (S e) (K e) (E e) c.

Local Open Scope go_scope.

(** [func (err *EventStoreErr) WithAggregate(aggregate *Aggregate) *EventStoreErr] *)
Definition WithAggregate (err : option loc) (aggregate : option Aggregate)
  : Go (gmap loc t) (option loc) :=
  let* e := deref err in
  assign err (set_K aggregate e) >>
  go_ret err.

(** [func (err *EventStoreErr) WithEntity(entity Entity) *EventStoreErr];
    [key] is the result of [entity.Aggregate()]. *)
Definition WithEntity (err : option loc) (key : Aggregate)
  : Go (gmap loc t) (option loc) :=
  let* e := deref err in
  assign err (set_K (Some key) e) >>
  go_ret err.

(** [func (err *EventStoreErr) WithEvent(event *Event) *EventStoreErr] *)
Definition WithEvent (err : option loc) (event : option Event)
  : Go (gmap loc t) (option loc) :=
  let* e := deref err in
  assign err (set_E event e) >>
  let* e' := deref err in
  match K e' with
  | None =>
      match event with
      | Some ev => WithAggregate err (Event_Aggregate ev)
      | None => go_panic
      end
  | Some _ => go_ret err
  end.

(** [func (err *EventStoreErr) Is(other error) bool] *)
Definition Is (err : option loc) (other : error) : Go (gmap loc t) bool :=
  if bool_decide (err <> None) && bool_decide (other = nil_error)
  then go_ret false
  else match other with
       | es_error esErr =>
           let* a := deref esErr in
           let* b := deref err in
           go_ret (bool_decide (S a = S b))
       | _ => go_ret false
       end.

(** [func (err *EventStoreErr) WithError(cause error) *EventStoreErr] *)
Definition WithError (err : option loc) (cause : error)
  : Go (gmap loc t) (option loc) :=
  let* e := deref err in
  assign err (set_C cause e) >>
  go_ret err.

(** [func (err *EventStoreErr) Error() string] *)
Definition Error (err : option loc) : Go (gmap loc t) string :=
  let* e := deref err in
  match K e with
  | None => go_ret (S e)
  | Some k => go_ret (Aggregate_Format k ++ ": " ++ S e)%string
  end.

(** The aggregate [WithEvent] leaves on an error holding [e]. *)
Definition aggregate_after (e : t) (ev : Event) : option Aggregate :=
  match K e with
  | Some k => Some k
  | None => Event_Aggregate ev
  end.

(** The four builder methods, as one call on a receiver. *)
Inductive Builder :=
| ByAggregate (aggregate : option Aggregate)
| ByEntity (key : Aggregate)
| ByEvent (event : option Event)
| ByError (cause : error).

Definition build (b : Builder) (err : option loc)
  : Go (gmap loc t) (option loc) :=
  match b with
  | ByAggregate a => WithAggregate err a
  | ByEntity key => WithEntity err key
  | ByEvent ev => WithEvent err ev
  | ByError c => WithError err c
  end.

(** The descriptions held by a heap, location by location. *)
Definition descriptions (h : gmap loc t) : gmap loc string := S <$> h.

End EventStoreErr.

(** The package-level sentinels: seven pointers into the initial heap. *)
Definition ErrInvalidAggregate : loc := 1.
Definition ErrInvalidEvent : loc := 2.
Definition ErrInvalidEntity : loc := 3.
Definition ErrEventStoreOverflow : loc := 4.
Definition ErrUnsupportedEntityEvent : loc := 5.
Definition ErrCorruptedEventPayload : loc := 6.
Definition ErrEntityNotFound : loc := 7.

Definition sentinel (s : string) : EventStoreErr.t :=
  EventStoreErr.mk s None None nil_error.

(** The heap right after package initialisation. *)
Definition package_heap : gmap loc EventStoreErr.t :=
  <[ErrInvalidAggregate := sentinel "invalid aggregate"]>
  (<[ErrInvalidEvent := sentinel "invalid event"]>
  (<[ErrInvalidEntity := sentinel "invalid entity"]>
  (<[ErrEventStoreOverflow := sentinel "event store out of space"]>
  (<[ErrUnsupportedEntityEvent := sentinel "event not supported"]>
  (<[ErrCorruptedEventPayload := sentinel "failed to parse event payload"]>
  (<[ErrEntityNotFound := sentinel "entity not found"]> ∅)))))).

Definition sentinels : list loc :=
  [ErrInvalidAggregate; ErrInvalidEvent; ErrInvalidEntity;
   ErrEventStoreOverflow; ErrUnsupportedEntityEvent;
   ErrCorruptedEventPayload; ErrEntityNotFound].

(** *** Entities

    [Entity] is an interface implemented by pointers to mutable objects.
    An entity is the projection of its aggregate's event stream, so the
    object behind the pointer is modelled by its identity together with the
    events folded into it so far. *)
Record EntityObj := mkEntityObj {
  obj_aggregate : Aggregate;
  obj_applied : list Event
}.

#[global] Instance EntityObj_eq_dec : EqDecision EntityObj.
Proof. solve_decision. Defined.

(** An [Entity] interface value: a pointer to the wrapped object. *)
Definition Entity := option loc.

Module Entity.
Local Open Scope go_scope.

(** [Aggregate() Aggregate]: type information about the entity. *)
Definition Aggregate (entity : Entity) : Go (gmap loc EntityObj) fes.Aggregate :=
  let* o := deref entity in go_ret (obj_aggregate o).

(** [ApplyEvent(event *Event) error].  Modelled from the spec: the method
    is entity-specific and its implementations are not part of the sources
    at hand; applying an event advances the state of the object in place,
    here by recording the event. *)
Definition ApplyEvent (entity : Entity) (event : Event)
  : Go (gmap loc EntityObj) error :=
  let* o := deref entity in
  assign entity (mkEntityObj (obj_aggregate o) (obj_applied o ++ [event])) >>
  go_ret nil_error.

(** [UpdateState(targetState Entity) error]: mutates the current entity to
    the provided state (as the interface documents it). *)
Definition UpdateState (entity targetState : Entity)
  : Go (gmap loc EntityObj) error :=
  let* _ := deref entity in
  let* o := deref targetState in
  assign entity o >>
  go_ret nil_error.

(** [CopyEntity() Entity]: copies the actual wrapped object, which gives a
    snapshot of the state (as the interface documents it). *)
Definition CopyEntity (entity : Entity) : Go (gmap loc EntityObj) Entity :=
  let* o := deref entity in
  let* l := alloc o in
  go_ret (Some l).

End Entity.

(** *** Notifications *)

(** Modelled from the spec: [pubsub.EmptyMsg], the message envelope made
    of a label set and a creation time; package [pubsub] is not part of the
    sources at hand. *)
Record EmptyMsg := NewEmptyMsg {
  EmptyMsg_labels : gmap string string;
  EmptyMsg_createdAt : Z
}.

Section Notification.

(** What the tracing library and the generated event code provide. *)
Variable SpanContext : Type.
(** [opentracing.GlobalTracer().Extract(opentracing.TextMap, carrier)] *)
Variable Extract : gmap string string -> option SpanContext * error.
(** [opentracing.ErrSpanContextNotFound] *)
Variable ErrSpanContextNotFound : error.
(** [event.Labels()] and [event.CreatedAt()] *)
Variable Labels : Event -> gmap string string.
Variable CreatedAt : Event -> Z.

Record Notification := mkNotification {
  Notification_EmptyMsg : EmptyMsg;
  Payload : Entity;
  EventType : string;
  SpanCtx : option SpanContext
}.

(** The span context the constructor ends up with, and the warnings it
    logs on the way. *)
Definition extractSpanCtx (event : Event) : option SpanContext * list string :=
  match Event_Metadata event with
  | Some md =>
      let '(sctx, err) := Extract md in
      (sctx,
       if bool_decide (err <> nil_error)
          && bool_decide (err <> ErrSpanContextNotFound)
       then ["failed to extract opentracing tracer from event"]
       else [])
  | None => (None, [])
  end.

(** [func newNotification(entity Entity, event *Event) *Notification];
    the second component is what is written to the log.  A nil [event]
    panics at [event.Metadata]. *)
Definition newNotification (entity : Entity) (event : option Event)
  : option (Notification * list string) :=
  match event with
  | None => None
  | Some ev =>
      let '(spanCtx, warnings) := extractSpanCtx ev in
      Some (mkNotification (NewEmptyMsg (Labels ev) (CreatedAt ev))
                           entity (Event_Type ev) spanCtx,
            warnings)
  end.

End Notification.

Arguments Payload {SpanContext} _.
Arguments EventType {SpanContext} _.
Arguments SpanCtx {SpanContext} _.
Arguments Notification_EmptyMsg {SpanContext} _.
Arguments mkNotification {SpanContext} _ _ _ _.
Arguments extractSpanCtx {SpanContext} _ _ _.
Arguments newNotification {SpanContext} _ _ _ _ _ _.

End fes.

(** ** Package [aggregates] *)

Module aggregates.
(** Modelled from the spec: the aggregate types of the two entity variants
    ([workflow] and [invocation]); the constants are declared in package
    [pkg/api/aggregates], which is not part of the sources at hand. *)
Definition TypeWorkflow : string := "workflow".
Definition TypeWorkflowInvocation : string := "invocation".
End aggregates.

(** ** Package [labels] *)

Module labels.

(** Modelled from the spec: label matchers of package [pkg/util/labels].
    The sources at hand build matchers with [labels.In(key, values...)] and
    [labels.Or(a, b)]; a subscriber's matcher accepts or rejects the label
    set of a published message. *)
Inductive Matcher :=
| In (key : string) (values : list string)
| Or (a b : Matcher).

(** [In] accepts a label set that binds [key] to one of [values];
    [Or] accepts what either operand accepts. *)
Fixpoint Matches (m : Matcher) (ls : gmap string string) : bool :=
  match m with
  | In key values =>
      match ls !! key with
      | Some v => bool_decide (v ∈ values)
      | None => false
      end
  | Or a b => Matches a ls || Matches b ls
  end.

End labels.

(** ** Package [pubsub] *)

Module pubsub.
(** [pubsub.SubscriptionOptions{Buffer: ..., LabelMatcher: ...}] *)
Record SubscriptionOptions := mkSubscriptionOptions {
  Buffer : Z;
  LabelMatcher : labels.Matcher
}.
End pubsub.

(** ** Package [scheduler] *)

Module scheduler.

(** *** The protocol file as data

    [scheduler.proto] declares one service and four messages.  They are
    kept as descriptors, field by field, in the order of the file. *)

Inductive FieldType :=
| TString
| TMessage (name : string).

Inductive FieldRule := Singular | Repeated.

Record FieldDescriptor := mkField {
  field_rule : FieldRule;
  field_type : FieldType;
  field_name : string;
  field_number : Z
}.

Record MessageDescriptor := mkMessage {
  message_name : string;
  message_fields : list FieldDescriptor
}.

Record MethodDescriptor := mkMethod {
  method_name : string;
  method_input : string;
  method_output : string
}.

Record ServiceDescriptor := mkService {
  service_name : string;
  service_methods : list MethodDescriptor
}.

Definition Timestamp_name : string := "google.protobuf.Timestamp".

(** [rpc evaluate (fission.workflows.types.WorkflowInvocation) returns (Schedule)] *)
Definition evaluate_method : MethodDescriptor :=
  mkMethod "evaluate" "fission.workflows.types.WorkflowInvocation" "Schedule".

Definition Scheduler_service : ServiceDescriptor :=
  mkService "Scheduler" [evaluate_method].

Definition Schedule_message : MessageDescriptor :=
  mkMessage "Schedule"
    [ mkField Singular TString "invocationId" 1;
      mkField Singular (TMessage Timestamp_name) "createdAt" 2;
      mkField Singular (TMessage "AbortAction") "abort" 4;
      mkField Repeated (TMessage "RunTaskAction") "runTasks" 5;
      mkField Repeated (TMessage "PrepareTaskAction") "prepareTasks" 6 ].

Definition AbortAction_message : MessageDescriptor :=
  mkMessage "AbortAction" [ mkField Singular TString "reason" 1 ].

Definition RunTaskAction_message : MessageDescriptor :=
  mkMessage "RunTaskAction" [ mkField Singular TString "taskID" 1 ].

Definition PrepareTaskAction_message : MessageDescriptor :=
  mkMessage "PrepareTaskAction"
    [ mkField Singular TString "taskID" 1;
      mkField Singular (TMessage Timestamp_name) "expectedAt" 2 ].

Definition file_messages : list MessageDescriptor :=
  [ Schedule_message; AbortAction_message;
    RunTaskAction_message; PrepareTaskAction_message ].

(** *** Attributes of a message

    What a message carries, with the references to other messages of the
    file resolved: text, a timestamp, an optional sub-record (a singular
    field of message type may be absent), or a list of sub-records. *)
#[warnings="-register-all"]
Inductive Attribute :=
| AText
| ATimestamp
| AOptional (fields : list (string * Attribute))
| AList (fields : list (string * Attribute)).

Definition lookup_message (env : list MessageDescriptor) (name : string)
  : option MessageDescriptor :=
  List.find (fun m => String.eqb (message_name m) name) env.

Fixpoint sequence_opt {A} (l : list (option A)) : option (list A) :=
  match l with
  | [] => Some []
  | Some a :: l' => match sequence_opt l' with
                    | Some r => Some (a :: r)
                    | None => None
                    end
  | None :: _ => None
  end.

(** [fuel] bounds the nesting depth of message references. *)
Fixpoint message_attributes (fuel : nat) (env : list MessageDescriptor)
  (m : MessageDescriptor) : option (list (string * Attribute)) :=
  match fuel with
  | O => None
  | Datatypes.S fuel' =>
      sequence_opt
        (List.map
           (fun f =>
              match field_type f with
              | TString =>
                  match field_rule f with
                  | Singular => Some (field_name f, AText)
                  | Repeated => None
                  end
              | TMessage name =>
                  if String.eqb name Timestamp_name then
                    match field_rule f with
                    | Singular => Some (field_name f, ATimestamp)
                    | Repeated => None
                    end
                  else
                    match lookup_message env name with
                    | Some sub =>
                        match message_attributes fuel' env sub with
                        | Some fs =>
                            Some (field_name f,
                                  match field_rule f with
                                  | Singular => AOptional fs
                                  | Repeated => AList fs
                                  end)
                        | None => None
                        end
                    | None => None
                    end
              end)
           (message_fields m))
  end.

(** The attributes of a Schedule in the words of the specification: an
    invocation id, createdAt, an optional abort carrying a reason, a list
    of runTask actions (each a task id), a list of prepareTask actions
    (each a task id and an expected start time). *)
Definition Schedule_attributes_spec : list (string * Attribute) :=
  [ ("invocationId", AText);
    ("createdAt", ATimestamp);
    ("abort", AOptional [("reason", AText)]);
    ("runTasks", AList [("taskID", AText)]);
    ("prepareTasks", AList [("taskID", AText); ("expectedAt", ATimestamp)]) ].

(** *** The messages as records *)

Record Timestamp := mkTimestamp { seconds : Z; nanos : Z }.

Record AbortAction := mkAbortAction { reason : string }.

Record RunTaskAction := mkRunTaskAction { RunTaskAction_taskID : string }.

Record PrepareTaskAction := mkPrepareTaskAction {
  PrepareTaskAction_taskID : string;
  expectedAt : option Timestamp
}.

Record Schedule := mkSchedule {
  invocationId : string;
  createdAt : option Timestamp;
  abort : option AbortAction;
  runTasks : list RunTaskAction;
  prepareTasks : list PrepareTaskAction
}.

End scheduler.

(** ** The tracing library's configuration *)

Module jaeger.
(** [jaeger.SamplerTypeConst] *)
Definition SamplerTypeConst : string := "const".
End jaeger.

Module jaegercfg.

(** [jaegercfg.SamplerConfig]; a struct literal leaves the fields it does
    not name at their zero values. *)
Record SamplerConfig := mkSamplerConfig {
  Type_ : string;
  Param : Q;
  SamplingServerURL : string;
  MaxOperations : Z;
  SamplingRefreshInterval : Z
}.

(** [jaegercfg.ReporterConfig] *)
Record ReporterConfig := mkReporterConfig {
  QueueSize : Z;
  BufferFlushInterval : Z;
  LogSpans : bool;
  LocalAgentHostPort : string
}.

(** [jaegercfg.Configuration], as read from the environment. *)
Record Configuration := mkConfiguration {
  ServiceName : string;
  Disabled : bool;
  RPCMetrics : bool;
  Sampler : option SamplerConfig;
  Reporter : option ReporterConfig
}.

Definition set_Sampler (s : option SamplerConfig) (c : Configuration) :=
  mkConfiguration (ServiceName c) (Disabled c) (RPCMetrics c) s (Reporter c).
Definition set_Reporter (r : option ReporterConfig) (c : Configuration) :=
  mkConfiguration (ServiceName c) (Disabled c) (RPCMetrics c) (Sampler c) r.

End jaegercfg.

(** ** Event store backends *)

Module nats.
(** [nats.Config] *)
Record Config := mkConfig {
  Cluster : string;
  Client : string;
  URL : string
}.

(** The streaming-log event store: the connection it was opened with and
    the aggregate types it watches. *)
Record EventStore := mkEventStore {
  conn : Config;
  watching : list fes.Aggregate
}.
End nats.

Module mem.
(** The in-memory backend; [NewBackend()] starts with an empty log. *)
Record Backend := mkBackend { contents : list fes.Event }.
Definition NewBackend : Backend := mkBackend [].
End mem.

(** ** Package [bundle] *)

Module bundle.

Record FissionOptions := mkFissionOptions {
  ExecutorAddress : string;
  ControllerAddr : string;
  RouterAddr : string
}.

Record Options := mkOptions {
  Nats : option nats.Config;
  Fission : option FissionOptions;
  InternalRuntime : bool;
  InvocationController : bool;
  WorkflowController : bool;
  AdminAPI : bool;
  WorkflowAPI : bool;
  HTTPGateway : bool;
  InvocationAPI : bool;
  Metrics : bool;
  Debug : bool
}.

(** *** Tracer configuration ([Run], the block guarded by [opts.Debug]) *)
Definition Run_tracerConfig (opts : Options) (cfg : jaegercfg.Configuration)
  : jaegercfg.Configuration :=
  if Debug opts then
    (* Debug: do not sample down *)
    let cfg := jaegercfg.set_Sampler
                 (Some (jaegercfg.mkSamplerConfig jaeger.SamplerTypeConst 1 "" 0 0))
                 cfg in
    jaegercfg.set_Reporter
      (Some (jaegercfg.mkReporterConfig 0 0 true "")) cfg
  else cfg.

(** *** Event store *)

(** The object behind a [fes.Backend] or [pubsub.Publisher] interface
    value. *)
Inductive BackendObj :=
| NatsEventStore (es : nats.EventStore)
| MemBackend (b : mem.Backend).

Section EventStore.

(** The outside world: a generator of unique ids, whether a connection to
    the streaming log can be opened, and whether watching an aggregate
    type succeeds. *)
Variable UID : string.
Variable Connect : nats.Config -> bool.
Variable Watch : nats.Config -> fes.Aggregate -> bool.

Local Open Scope go_scope.

(** [func setupNatsEventStoreClient(url, cluster, clientID string) *nats.EventStore];
    the three [panic(err)] are the [go_panic] branches. *)
Definition setupNatsEventStoreClient (url cluster clientID : string)
  : Go (gmap loc BackendObj) loc :=
  let clientID := if bool_decide (clientID = "") then UID else clientID in
  let cfg := nats.mkConfig cluster clientID url in
  if negb (Connect cfg) then go_panic
  else
    let wfi := fes.mkAggregate "" aggregates.TypeWorkflowInvocation in
    let wf := fes.mkAggregate "" aggregates.TypeWorkflow in
    if negb (Watch cfg wfi) then go_panic
    else if negb (Watch cfg wf) then go_panic
    else alloc (NatsEventStore (nats.mkEventStore cfg [wfi; wf])).

(** The connection the streaming-log client ends up with for the options
    [n], and the aggregates it watches. *)
Definition natsConfig (n : nats.Config) : nats.Config :=
  nats.mkConfig (nats.Cluster n)
                (if bool_decide (nats.Client n = "") then UID else nats.Client n)
                (nats.URL n).

Definition watched : list fes.Aggregate :=
  [fes.mkAggregate "" aggregates.TypeWorkflowInvocation;
   fes.mkAggregate "" aggregates.TypeWorkflow].

(** [Run], the block that chooses the event store: the result is the pair
    ([es], [esPub]). *)
Definition Run_eventStore (opts : Options)
  : Go (gmap loc BackendObj) (loc * loc) :=
  match Nats opts with
  | Some n =>
      let* natsEs := setupNatsEventStoreClient (nats.URL n) (nats.Cluster n)
                                               (nats.Client n) in
      go_ret (natsEs, natsEs)
  | None =>
      let* backend := alloc (MemBackend mem.NewBackend) in
      go_ret (backend, backend)
  end.

End EventStore.

(** *** Caches *)

(** What [fes.NewSubscribedCache] is constructed from: the name of the
    backing map cache, the entity factory, and the subscription. *)
Record SubscribedCache := mkSubscribedCache {
  cache_name : string;
  cache_factory : string;
  cache_sub : pubsub.SubscriptionOptions
}.

(** The state the cache setup acts on: the application's closers and the
    subscriptions registered with the publisher. *)
Record App := mkApp {
  closers : gmap string SubscribedCache;
  subscriptions : list pubsub.SubscriptionOptions
}.

Local Open Scope go_scope.

(** [func (app *App) RegisterCloser(name string, closer io.Closer)] *)
Definition RegisterCloser (name : string) (closer : SubscribedCache)
  : Go App unit :=
  fun app =>
    match closers app !! name with
    | Some _ => None (* panic: duplicate registry *)
    | None => Some (tt, mkApp (<[name := closer]> (closers app))
                              (subscriptions app))
    end.

(** [Publisher.Subscribe(opts)] *)
Definition Subscribe (opts : pubsub.SubscriptionOptions)
  : Go App pubsub.SubscriptionOptions :=
  fun app => Some (opts, mkApp (closers app) (subscriptions app ++ [opts])).

(** [func setupWorkflowInvocationCache(app *App, invocationEventPub pubsub.Publisher) *fes.SubscribedCache] *)
Definition setupWorkflowInvocationCache : Go App SubscribedCache :=
  let* invokeSub :=
    Subscribe (pubsub.mkSubscriptionOptions 50
      (labels.Or
         (labels.In fes.PubSubLabelAggregateType [aggregates.TypeWorkflowInvocation])
         (labels.In "parent.type" [aggregates.TypeWorkflowInvocation]))) in
  let name := aggregates.TypeWorkflowInvocation in
  let c := mkSubscribedCache name "NewInvocationEntity" invokeSub in
  RegisterCloser ("cache-" ++ name) c >>
  go_ret c.

(** [func setupWorkflowCache(app *App, workflowEventPub pubsub.Publisher) *fes.SubscribedCache] *)
Definition setupWorkflowCache : Go App SubscribedCache :=
  let* wfSub :=
    Subscribe (pubsub.mkSubscriptionOptions 10
      (labels.In fes.PubSubLabelAggregateType [aggregates.TypeWorkflow])) in
  let name := aggregates.TypeWorkflow in
  let c := mkSubscribedCache name "NewWorkflowEntity" wfSub in
  RegisterCloser ("cache-" ++ name) c >>
  go_ret c.

(** *** Addresses *)

Definition gRPCAddress : string := ":5555".
Definition apiGatewayAddress : string := ":8080".
Definition fissionProxyAddress : string := ":8888".
Definition jaegerTracerServiceName : string := "fission.workflows".

(** *** Closing the application *)

Inductive LogLine :=
| Errorf (name err : string)   (* "Error while closing %s: %v" *)
| Infof (name : string).       (* "Closed %s" *)

Section Close.

(** What [closer.Close()] returns for a registered closer: [None] for a
    nil error. *)
Variable closeErr : SubscribedCache -> option string.

(** One turn of the range loop: the log so far and [errorOccured]. *)
Definition Close_visit (st : list LogLine * bool)
  (entry : string * SubscribedCache) : list LogLine * bool :=
  match closeErr (snd entry) with
  | Some err => ((fst st ++ [Errorf (fst entry) err])%list, true)
  | None => ((fst st ++ [Infof (fst entry)])%list, snd st)
  end.

(** [func (app *App) Close() error].  Go visits the entries of a map in an
    unspecified order: [order] is the order of this run. *)
Definition Close (order : list (string * SubscribedCache))
  : list LogLine * fes.error :=
  let st := List.fold_left Close_visit order ([], false) in
  (fst st,
   if snd st
   then fes.other_error "error(s) occurred while closing application"
   else fes.nil_error).

(** The line one closer leaves in the log, and whether it closed without
    an error. *)
Definition close_line (entry : string * SubscribedCache) : LogLine :=
  match closeErr (snd entry) with
  | Some err => Errorf (fst entry) err
  | None => Infof (fst entry)
  end.

Definition closes_cleanly (entry : string * SubscribedCache) : bool :=
  bool_decide (closeErr (snd entry) = None).

End Close.

(** *** The typed stores and their lazy constructors *)

(** [store.NewInvocationStore(c)] and [store.NewWorkflowsStore(c)] *)
Record Invocations := NewInvocationStore { Invocations_cache : SubscribedCache }.
Record Workflows := NewWorkflowsStore { Workflows_cache : SubscribedCache }.

(** The state [Run] threads through its set-up: the application, and the
    variables captured by the two closures that [getInvocationStore] and
    [getWorkflowStore] return (both start out nil). *)
Record RunState := mkRunState {
  run_app : App;
  invocations : option Invocations;
  workflows : option Workflows
}.

Definition liftApp {A} (m : Go App A) : Go RunState A :=
  fun s => match m (run_app s) with
           | Some (a, app') =>
               Some (a, mkRunState app' (invocations s) (workflows s))
           | None => None
           end.

(** The closure returned by [getInvocationStore(app, esPub)]: it returns
    the captured store when there is one, and otherwise sets up the cache
    and returns a store over it.  The captured variable is read and never
    assigned. *)
Definition wfiCache : Go RunState Invocations :=
  fun s => match invocations s with
           | Some i => Some (i, s)
           | None =>
               (let* c := liftApp setupWorkflowInvocationCache in
                go_ret (NewInvocationStore c)) s
           end.

(** The closure returned by [getWorkflowStore(app, esPub)], alike. *)
Definition wfCache : Go RunState Workflows :=
  fun s => match workflows s with
           | Some w => Some (w, s)
           | None =>
               (let* c := liftApp setupWorkflowCache in
                go_ret (NewWorkflowsStore c)) s
           end.

(** [app := &App{Options: opts, closers: map[string]io.Closer{}}], a
    publisher nobody has subscribed to yet, and the two closures just
    created. *)
Definition Run_init : RunState := mkRunState (mkApp ∅ []) None None.

(** *** What [Run] wires together *)

Inductive Runtime :=
| ReflectiveRuntime (wfi : Invocations)               (* workflows.NewRuntime *)
| InternalFunctionEnv                                 (* native.NewFunctionEnv *)
| FissionFunctionEnv (executorAddr routerAddr : string).

Inductive Resolver :=
| InternalResolver
| FissionResolver (controllerAddr : string).

Inductive Controller :=
| WorkflowController_ (wf : Workflows) (es : loc)
    (fnResolvers : gmap string Resolver)
| InvocationController_ (wfi : Invocations) (wf : Workflows) (es : loc)
    (fnRuntimes : gmap string Runtime) (fnResolvers : gmap string Resolver).

Inductive ApiServer :=
| AdminServer
| WorkflowServer (es : loc) (resolvers : gmap string Resolver) (wf : Workflows)
| InvocationServer (es : loc) (wfi : Invocations).

Record FissionProxy := mkFissionProxy {
  proxy_es : loc;
  proxy_invocations : Invocations;
  proxy_workflows : Workflows;
  proxy_resolvers : gmap string Resolver;
  proxy_metrics : bool
}.

Record Wiring := mkWiring {
  w_runtimes : gmap string Runtime;
  w_resolvers : gmap string Resolver;
  w_controllers : list Controller;
  w_proxy : option FissionProxy;
  w_apis : list ApiServer
}.

(** [setupInternalFunctionRuntime], [setupFissionFunctionRuntime],
    [setupFissionFunctionResolver], [setupWorkflowController],
    [setupInvocationController] *)
Definition setupInternalFunctionRuntime : Runtime := InternalFunctionEnv.
Definition setupFissionFunctionRuntime (executorAddr routerAddr : string)
  : Runtime := FissionFunctionEnv executorAddr routerAddr.
Definition setupFissionFunctionResolver (controllerAddr : string) : Resolver :=
  FissionResolver controllerAddr.
Definition setupWorkflowController (store : Workflows) (es : loc)
  (fnResolvers : gmap string Resolver) : Controller :=
  WorkflowController_ store es fnResolvers.
Definition setupInvocationController (invocations : Invocations)
  (workflows : Workflows) (es : loc) (fnRuntimes : gmap string Runtime)
  (fnResolvers : gmap string Resolver) : Controller :=
  InvocationController_ invocations workflows es fnRuntimes fnResolvers.

Section Wiring.

(** [workflows.Name], the key of the workflow runtime; the constant is
    declared in package [pkg/fnenv/workflows]. *)
Variable workflows_Name : string.
(** The event store chosen before. *)
Variable es : loc.

(** [Run], block "Function Runtimes": the maps [runtimes] and [resolvers]. *)
Definition Run_functionRuntimes (opts : Options)
  : Go RunState (gmap string Runtime * gmap string Resolver) :=
  let* runtimes :=
    (if InternalRuntime opts || bool_decide (Fission opts <> None)
     then let* wfi := wfiCache in
          go_ret (<[workflows_Name := ReflectiveRuntime wfi]> (∅ : gmap string Runtime))
     else go_ret ∅) in
  let internal :=
    if InternalRuntime opts
    then (<["internal" := setupInternalFunctionRuntime]> runtimes,
          <["internal" := InternalResolver]> (∅ : gmap string Resolver))
    else (runtimes, ∅) in
  go_ret
    match Fission opts with
    | Some f =>
        (<["fission" := setupFissionFunctionRuntime (ExecutorAddress f) (RouterAddr f)]>
           (fst internal),
         <["fission" := setupFissionFunctionResolver (ControllerAddr f)]>
           (snd internal))
    | None => internal
    end.

(** [Run], block "Controllers". *)
Definition Run_controllers (opts : Options)
  (runtimes : gmap string Runtime) (resolvers : gmap string Resolver)
  : Go RunState (list Controller) :=
  if InvocationController opts || WorkflowController opts then
    let* ctrls :=
      (if WorkflowController opts
       then let* wf := wfCache in
            go_ret [setupWorkflowController wf es resolvers]
       else go_ret []) in
    if InvocationController opts
    then let* wfi := wfiCache in
         let* wf := wfCache in
         go_ret (ctrls ++ [setupInvocationController wfi wf es runtimes resolvers])%list
    else go_ret ctrls
  else go_ret [].

(** [Run], block "Fission integration", with [runFissionEnvironmentProxy]. *)
Definition Run_fissionProxy (opts : Options) (resolvers : gmap string Resolver)
  : Go RunState (option FissionProxy) :=
  match Fission opts with
  | Some _ =>
      let* wfi := wfiCache in
      let* wf := wfCache in
      go_ret (Some (mkFissionProxy es wfi wf resolvers (Metrics opts)))
  | None => go_ret None
  end.

(** [Run], block "gRPC API", with [serveAdminAPI], [serveWorkflowAPI] and
    [serveInvocationAPI]. *)
Definition Run_grpcAPI (opts : Options) (resolvers : gmap string Resolver)
  : Go RunState (list ApiServer) :=
  let admin := if AdminAPI opts then [AdminServer] else [] in
  let* wf :=
    (if WorkflowAPI opts
     then let* store := wfCache in go_ret [WorkflowServer es resolvers store]
     else go_ret []) in
  let* wfi :=
    (if InvocationAPI opts
     then let* store := wfiCache in go_ret [InvocationServer es store]
     else go_ret []) in
  go_ret (admin ++ wf ++ wfi)%list.

(** The four blocks in the order of [Run]. *)
Definition Run_wiring (opts : Options) : Go RunState Wiring :=
  let* maps := Run_functionRuntimes opts in
  let* ctrls := Run_controllers opts (fst maps) (snd maps) in
  let* proxy := Run_fissionProxy opts (snd maps) in
  let* apis := Run_grpcAPI opts (snd maps) in
  go_ret (mkWiring (fst maps) (snd maps) ctrls proxy apis).

End Wiring.

(** *** The HTTP gateway *)

Inductive GatewayEndpoint :=
| AdminEndpoint | WorkflowEndpoint | InvocationEndpoint.

#[global] Instance GatewayEndpoint_eq_dec : EqDecision GatewayEndpoint.
Proof. solve_decision. Defined.

Section Gateway.

(** Whether [Register...HandlerFromEndpoint(ctx, mux, addr, opts)] returns
    without an error. *)
Variable registerOK : GatewayEndpoint -> string -> bool.

(** A registration on the gateway's mux; an error makes the caller
    panic. *)
Definition registerEndpoint (ep : GatewayEndpoint) (addr : string)
  : Go (list (GatewayEndpoint * string)) unit :=
  fun mux => if registerOK ep addr then Some (tt, (mux ++ [(ep, addr)])%list)
             else None.

(** [func serveHTTPGateway(ctx, mux, adminAPIAddr, workflowAPIAddr, invocationAPIAddr)] *)
Definition serveHTTPGateway (adminAPIAddr workflowAPIAddr invocationAPIAddr : string)
  : Go (list (GatewayEndpoint * string)) unit :=
  (if bool_decide (adminAPIAddr <> "")
   then registerEndpoint AdminEndpoint adminAPIAddr else go_ret tt) >>
  (if bool_decide (workflowAPIAddr <> "")
   then registerEndpoint WorkflowEndpoint workflowAPIAddr else go_ret tt) >>
  (if bool_decide (invocationAPIAddr <> "")
   then registerEndpoint InvocationEndpoint invocationAPIAddr else go_ret tt).

(** [Run], block "HTTP API": the endpoints put on the gateway's mux. *)
Definition Run_httpGateway (opts : Options)
  : Go (list (GatewayEndpoint * string)) unit :=
  if HTTPGateway opts || Metrics opts then
    if HTTPGateway opts then
      let admin := if AdminAPI opts then gRPCAddress else "" in
      let wf := if WorkflowAPI opts then gRPCAddress else "" in
      let wfi := if InvocationAPI opts then gRPCAddress else "" in
      serveHTTPGateway admin wf wfi
    else go_ret tt
  else go_ret tt.

End Gateway.

(** The API an endpoint of the gateway forwards to. *)
Definition endpoint_enabled (opts : Options) (ep : GatewayEndpoint) : bool :=
  match ep with
  | AdminEndpoint => AdminAPI opts
  | WorkflowEndpoint => WorkflowAPI opts
  | InvocationEndpoint => InvocationAPI opts
  end.

(** *** The tracing wrapper *)

(** A request as the wrapper sees it: method, URL, headers, and the span
    carried by its context. *)
Record Request := mkRequest {
  Method : string;
  URL : string;
  Header : gmap string string;
  spanInContext : bool
}.

Inductive HandlerEvent :=
| StartSpan (parentFound : bool) (method url : string)
| ServeHTTP (r : Request)
| FinishSpan
| LogExtractError.

Section TracingWrapper.

(** [opentracing.GlobalTracer().Extract(opentracing.HTTPHeaders, ...)]:
    whether a parent context was found, and the error. *)
Variable ExtractHTTP : gmap string string -> bool * fes.error.
Variable ErrSpanContextNotFound : fes.error.
(** The wrapped handler: [true] when [h.ServeHTTP] returns, [false] when
    it panics. *)
Variable h : Request -> bool.

(** [func tracingWrapper(h http.Handler) http.Handler], on one request:
    what happens, in order, and whether the call returns.  [FinishSpan] is
    deferred, so it runs whether the handler returns or panics. *)
Definition tracingWrapper (r : Request) : list HandlerEvent * bool :=
  let '(parent, err) := ExtractHTTP (Header r) in
  if bool_decide (err = fes.nil_error)
     || bool_decide (err = ErrSpanContextNotFound)
  then
    let r' := mkRequest (Method r) (URL r) (Header r) true in
    ([StartSpan parent (Method r) (URL r); ServeHTTP r'; FinishSpan], h r')
  else
    ([LogExtractError; ServeHTTP r], h r).

End TracingWrapper.

End bundle.

(** ** Chart values *)

Module chart.
(** [eventstore.type], with the values the chart documents as supported. *)
Inductive EventStoreType := mem | nats.

Record NatsValues := mkNatsValues {
  authToken : string;
  cluster : string;
  location : string;
  port : Z
}.

Record Values := mkValues {
  debug : bool;
  eventstore_type : EventStoreType;
  eventstore_nats : NatsValues
}.

Definition values : Values :=
  mkValues false mem
    (mkNatsValues "defaultFissionAuthToken" "fissionMQTrigger"
                  "nats-streaming" 4222).

Definition supported : list EventStoreType := [nats; mem].
End chart.

(** ** Sample data *)

Module examples.
Import fes.

Definition invocation1 : Aggregate := mkAggregate "inv-1" "invocation".
Definition workflow1 : Aggregate := mkAggregate "wf-1" "workflow".

Definition created : Event :=
  mkEvent "InvocationCreated" (Some invocation1) None "" None 10.

Definition taskStarted : Event :=
  mkEvent "TaskStarted" (Some (mkAggregate "task-a" "task")) (Some invocation1)
          "" (Some ({[ "uber-trace-id" := "1:2:3:1" ]} : gmap string string)) 20.

Definition workflowCreated : Event :=
  mkEvent "WorkflowCreated" (Some workflow1) None "" None 5.

(** A tracer that finds a span context under the key [uber-trace-id]. *)
Definition ErrSpanContextNotFound : error :=
  other_error "opentracing: SpanContext not found in Extract carrier".

Definition Extract (carrier : gmap string string) : option string * error :=
  match carrier !! "uber-trace-id" with
  | Some v => (Some v, nil_error)
  | None => (None, ErrSpanContextNotFound)
  end.

(** Modelled from the spec: the labels of an event are its aggregate's
    type and id, and its parent's type when it has one. *)
Definition Labels (e : Event) : gmap string string :=
  match Event_Aggregate e with
  | Some a => {[ "aggregate.type" := Aggregate_Type a;
                 "aggregate.id" := Aggregate_Id a ]}
  | None => ∅
  end
  ∪ match Event_Parent e with
    | Some a => {[ "parent.type" := Aggregate_Type a ]}
    | None => ∅
    end.

Definition CreatedAt (e : Event) : Z := Event_Timestamp e.

(** One invocation entity in the cache, with [created] folded in. *)
Definition live : loc := 1.
Definition entities : gmap loc EntityObj :=
  {[ live := mkEntityObj invocation1 [created] ]}.

(** The heap after some other code has made an error of its own with the
    description of a sentinel. *)
Definition own_error : loc := 8.
Definition heap_with_own_error : gmap loc EventStoreErr.t :=
  <[own_error := EventStoreErr.mk "entity not found" (Some workflow1) None
                   (other_error "cache miss")]> package_heap.

(** An application with one cache registered. *)
Definition invocationCache : bundle.SubscribedCache :=
  bundle.mkSubscribedCache "invocation" "NewInvocationEntity"
    (pubsub.mkSubscriptionOptions 50
       (labels.In "aggregate.type" ["invocation"])).

Definition app1 : bundle.App :=
  bundle.mkApp {[ "cache-invocation" := invocationCache ]} [].

Definition only_internal : bundle.Options :=
  bundle.mkOptions None None true false false true false true false false false.

End examples.

(** * Properties *)

(** ** The heap monad *)

Section GoLemmas.
Context {V : Type}.
Implicit Types (h : gmap loc V) (l : loc) (v : V).

Lemma deref_lookup h l v :
  h !! l = Some v -> deref (Some l) h = Some (v, h).
Proof. intros Hl. unfold deref. now rewrite Hl. Qed.

Lemma deref_nil h : deref (V := V) None h = None.
Proof. reflexivity. Qed.

Lemma deref_heap h p v h' : deref p h = Some (v, h') -> h' = h.
Proof.
  unfold deref. destruct p as [l|]; [|discriminate].
  destruct (h !! l); [|discriminate]. now intros [= _ <-].
Qed.

Lemma assign_insert h l v : assign (Some l) v h = Some (tt, <[l := v]> h).
Proof. reflexivity. Qed.

Lemma alloc_fresh h v l h' :
  alloc v h = Some (l, h') -> h !! l = None /\ h' = <[l := v]> h.
Proof.
  unfold alloc. intros [= <- <-]. split; [|reflexivity].
  apply not_elem_of_dom, is_fresh.
Qed.

End GoLemmas.

(** ** [EventStoreErr]: the builders *)

Section Builders.
Import fes.
Implicit Types (h : gmap loc EventStoreErr.t) (p q : loc) (e : EventStoreErr.t).

Lemma WithAggregate_run h p e a :
  h !! p = Some e ->
  EventStoreErr.WithAggregate (Some p) a h
  = Some (Some p, <[p := EventStoreErr.set_K a e]> h).
Proof.
  intros Hp. unfold EventStoreErr.WithAggregate, go_bind.
  now rewrite (deref_lookup _ _ _ Hp).
Qed.

Lemma WithEntity_run h p e key :
  h !! p = Some e ->
  EventStoreErr.WithEntity (Some p) key h
  = Some (Some p, <[p := EventStoreErr.set_K (Some key) e]> h).
Proof.
  intros Hp. unfold EventStoreErr.WithEntity, go_bind.
  now rewrite (deref_lookup _ _ _ Hp).
Qed.

Lemma WithError_run h p e cause :
  h !! p = Some e ->
  EventStoreErr.WithError (Some p) cause h
  = Some (Some p, <[p := EventStoreErr.set_C cause e]> h).
Proof.
  intros Hp. unfold EventStoreErr.WithError, go_bind.
  now rewrite (deref_lookup _ _ _ Hp).
Qed.

Lemma WithEvent_run h p e ev :
  h !! p = Some e ->
  EventStoreErr.WithEvent (Some p) (Some ev) h
  = Some (Some p,
          <[p := EventStoreErr.mk (EventStoreErr.S e)
                                  (EventStoreErr.aggregate_after e ev)
                                  (Some ev) (EventStoreErr.C e)]> h).
Proof.
  intros Hp. unfold EventStoreErr.WithEvent, go_bind.
  rewrite (deref_lookup _ _ _ Hp), assign_insert.
  rewrite (deref_lookup _ p (EventStoreErr.set_E (Some ev) e))
    by apply lookup_insert_eq.
  unfold EventStoreErr.aggregate_after.
  cbn [EventStoreErr.set_E EventStoreErr.K].
  destruct (EventStoreErr.K e) as [k|] eqn:HK.
  - rewrite <- HK. reflexivity.
  - rewrite (WithAggregate_run _ p (EventStoreErr.set_E (Some ev) e))
      by apply lookup_insert_eq.
    rewrite insert_insert_eq. reflexivity.
Qed.

(** A nil event is stored as it is when an aggregate is attached already,
    and dereferenced (a panic) when none is. *)
Lemma WithEvent_nil_event h p e :
  h !! p = Some e ->
  EventStoreErr.WithEvent (Some p) None h
  = match EventStoreErr.K e with
    | Some _ => Some (Some p, <[p := EventStoreErr.set_E None e]> h)
    | None => None
    end.
Proof.
  intros Hp. unfold EventStoreErr.WithEvent, go_bind.
  rewrite (deref_lookup _ _ _ Hp), assign_insert.
  rewrite (deref_lookup _ p (EventStoreErr.set_E None e))
    by apply lookup_insert_eq.
  cbn [EventStoreErr.set_E EventStoreErr.K].
  now destruct (EventStoreErr.K e).
Qed.

(** C10.  For every event-store error [p] (holding [e]) and every event
    [ev], [WithEvent] returns the receiver, sets its event field to [ev],
    keeps the description and the cause, keeps an aggregate that was
    attached already, attaches the event's aggregate when none was, and
    changes nothing else in the heap. *)
Theorem WithEvent_frame h p e ev :
  h !! p = Some e ->
  exists h' e',
    EventStoreErr.WithEvent (Some p) (Some ev) h = Some (Some p, h')
    /\ h' !! p = Some e'
    /\ EventStoreErr.E e' = Some ev
    /\ EventStoreErr.S e' = EventStoreErr.S e
    /\ EventStoreErr.C e' = EventStoreErr.C e
    /\ (forall k, EventStoreErr.K e = Some k -> EventStoreErr.K e' = Some k)
    /\ (EventStoreErr.K e = None -> EventStoreErr.K e' = Event_Aggregate ev)
    /\ (forall q, q <> p -> h' !! q = h !! q).
Proof.
  intros Hp. eexists _, _. split; [exact (WithEvent_run h p e ev Hp)|].
  split; [apply lookup_insert_eq|]. cbn. unfold EventStoreErr.aggregate_after.
  repeat split.
  - intros k Hk. now rewrite Hk.
  - intros Hk. now rewrite Hk.
  - intros q Hq. now apply lookup_insert_ne.
Qed.

End Builders.

Section WithEvent_example.
Import fes.

Lemma WithEvent_frame_witness :
  exists h' e',
    EventStoreErr.WithEvent (Some ErrInvalidEvent) (Some examples.created) package_heap
    = Some (Some ErrInvalidEvent, h')
    /\ h' !! ErrInvalidEvent = Some e'
    /\ EventStoreErr.E e' = Some examples.created
    /\ EventStoreErr.S e' = EventStoreErr.S (sentinel "invalid event")
    /\ EventStoreErr.C e' = EventStoreErr.C (sentinel "invalid event")
    /\ (forall k, EventStoreErr.K (sentinel "invalid event") = Some k ->
                  EventStoreErr.K e' = Some k)
    /\ (EventStoreErr.K (sentinel "invalid event") = None ->
        EventStoreErr.K e' = Event_Aggregate examples.created)
    /\ (forall q, q <> ErrInvalidEvent -> h' !! q = package_heap !! q).
Proof.
  apply (WithEvent_frame package_heap ErrInvalidEvent
           (sentinel "invalid event") examples.created).
  reflexivity.
Defined.

End WithEvent_example.

(** ** [EventStoreErr]: comparison *)

Section Comparison.
Import fes.
Implicit Types (h : gmap loc EventStoreErr.t) (p q : loc) (e : EventStoreErr.t).

(** What [Is] computes for a non-nil receiver: false for the nil interface
    and for a foreign error, a nil dereference for a nil [*EventStoreErr],
    and the comparison of the two descriptions otherwise. *)
Lemma Is_run h p e other :
  h !! p = Some e ->
  EventStoreErr.Is (Some p) other h
  = match other with
    | nil_error | other_error _ => Some (false, h)
    | es_error None => None
    | es_error (Some q) =>
        match h !! q with
        | Some e' => Some (bool_decide (EventStoreErr.S e' = EventStoreErr.S e), h)
        | None => None
        end
    end.
Proof.
  intros Hp. unfold EventStoreErr.Is, go_bind, deref, go_ret.
  destruct other as [|[q|]|msg];
    repeat case_bool_decide; try congruence; cbn [andb]; try reflexivity.
  destruct (h !! q) as [e'|]; [|reflexivity].
  now rewrite Hp.
Qed.

(** [Is] only reads. *)
Lemma Is_pure h (r : option loc) other b h' :
  EventStoreErr.Is r other h = Some (b, h') -> h' = h.
Proof.
  unfold EventStoreErr.Is.
  destruct (_ && _); [now intros [= _ <-]|].
  destruct other as [|esErr|msg]; try now intros [= _ <-].
  unfold go_bind.
  destruct (deref esErr h) as [[a h1]|] eqn:H1; [|discriminate].
  apply deref_heap in H1 as ->.
  destruct (deref r h) as [[c h2]|] eqn:H2; [|discriminate].
  apply deref_heap in H2 as ->. now intros [= _ <-].
Qed.

(** A builder that returns has returned its receiver, and has left every
    description in the heap as it was. *)
Lemma build_descriptions b q h r h' :
  EventStoreErr.build b (Some q) h = Some (r, h') ->
  r = Some q /\ EventStoreErr.descriptions h' = EventStoreErr.descriptions h.
Proof.
  intros Hb. destruct (h !! q) as [e|] eqn:Hq.
  - assert (Hkeep : forall e', EventStoreErr.S e' = EventStoreErr.S e ->
              EventStoreErr.descriptions (<[q := e']> h)
              = EventStoreErr.descriptions h).
    { intros e' HS. unfold EventStoreErr.descriptions.
      rewrite fmap_insert, HS. apply insert_id.
      now rewrite lookup_fmap, Hq. }
    destruct b as [a|key|[ev|]|c]; cbn in Hb.
    + rewrite (WithAggregate_run _ _ _ _ Hq) in Hb.
      injection Hb as <- <-. auto.
    + rewrite (WithEntity_run _ _ _ _ Hq) in Hb.
      injection Hb as <- <-. auto.
    + rewrite (WithEvent_run _ _ _ _ Hq) in Hb.
      injection Hb as <- <-. auto.
    + rewrite (WithEvent_nil_event _ _ _ Hq) in Hb.
      destruct (EventStoreErr.K e); [|discriminate].
      injection Hb as <- <-. auto.
    + rewrite (WithError_run _ _ _ _ Hq) in Hb.
      injection Hb as <- <-. auto.
  - exfalso. destruct b as [a|key|ev|c]; cbn in Hb;
      unfold EventStoreErr.WithAggregate, EventStoreErr.WithEntity,
             EventStoreErr.WithEvent, EventStoreErr.WithError, go_bind in Hb;
      unfold deref at 1 in Hb; now rewrite Hq in Hb.
Qed.

(** The outcome of [Is] depends on the heap through the descriptions only. *)
Lemma Is_descriptions h h' p e other :
  h !! p = Some e ->
  EventStoreErr.descriptions h' = EventStoreErr.descriptions h ->
  fst <$> EventStoreErr.Is (Some p) other h'
  = fst <$> EventStoreErr.Is (Some p) other h.
Proof.
  intros Hp Hd.
  assert (HS : forall l, EventStoreErr.S <$> h' !! l = EventStoreErr.S <$> h !! l).
  { intros l. unfold EventStoreErr.descriptions in Hd.
    now rewrite <- !lookup_fmap, Hd. }
  pose proof (HS p) as HSp. rewrite Hp in HSp.
  destruct (h' !! p) as [e1|] eqn:Hp'; [|discriminate].
  injection HSp as HSp.
  rewrite (Is_run _ _ _ _ Hp), (Is_run _ _ _ _ Hp').
  destruct other as [|[q|]|msg]; try reflexivity.
  pose proof (HS q) as HSq.
  destruct (h' !! q) as [a'|], (h !! q) as [a|]; try discriminate; [|reflexivity].
  injection HSq as HSq. cbn. now rewrite HSp, HSq.
Qed.

(** C9.  For an event-store error [p] (holding [e]) and any error value
    [other]: [Is] returns true exactly when [other] is a non-nil
    event-store error with the same description; against the nil interface
    and against a foreign error it returns false; against another
    event-store error the result is the comparison of the two descriptions,
    whatever aggregate, event and cause are attached; and no builder
    ([WithAggregate], [WithEntity], [WithEvent], [WithError]) applied to
    any error changes the outcome, so that an error built from [p] still
    satisfies [Is] with respect to [p], in both directions. *)
Theorem Is_spec h p e other :
  h !! p = Some e ->
  (EventStoreErr.Is (Some p) other h = Some (true, h)
   <-> exists q e', other = es_error (Some q) /\ h !! q = Some e'
                    /\ EventStoreErr.S e' = EventStoreErr.S e)
  /\ EventStoreErr.Is (Some p) nil_error h = Some (false, h)
  /\ (forall msg, EventStoreErr.Is (Some p) (other_error msg) h = Some (false, h))
  /\ (forall q s k k' ev ev' c c',
        h !! q = Some (EventStoreErr.mk s k ev c) ->
        e = EventStoreErr.mk s k' ev' c' ->
        EventStoreErr.Is (Some p) (es_error (Some q)) h = Some (true, h))
  /\ (forall b q r h',
        EventStoreErr.build b (Some q) h = Some (r, h') ->
        fst <$> EventStoreErr.Is (Some p) other h'
        = fst <$> EventStoreErr.Is (Some p) other h)
  /\ (forall b r h',
        EventStoreErr.build b (Some p) h = Some (r, h') ->
        EventStoreErr.Is r (es_error (Some p)) h' = Some (true, h')
        /\ EventStoreErr.Is (Some p) (es_error r) h' = Some (true, h')).
Proof.
  intros Hp. repeat apply conj.
  - rewrite (Is_run _ _ _ _ Hp). intros HIs.
    destruct other as [|[q|]|msg]; try discriminate.
    destruct (h !! q) as [e'|] eqn:Hq; [|discriminate].
    injection HIs as HIs. apply bool_decide_eq_true in HIs. eauto.
  - intros (q & e' & -> & Hq & HS).
    rewrite (Is_run _ _ _ _ Hp), Hq. now rewrite bool_decide_eq_true_2.
  - exact (Is_run _ _ _ nil_error Hp).
  - intros msg. exact (Is_run _ _ _ (other_error msg) Hp).
  - intros q s k k' ev ev' c c' Hq ->.
    rewrite (Is_run _ _ _ _ Hp), Hq. cbn. now rewrite bool_decide_eq_true_2.
  - intros b q r h' Hb. apply build_descriptions in Hb as [_ Hd].
    now apply (Is_descriptions _ _ _ e).
  - intros b r h' Hb. pose proof Hb as Hb'.
    apply build_descriptions in Hb' as [-> Hd].
    assert (Hp' : exists e1, h' !! p = Some e1).
    { unfold EventStoreErr.descriptions in Hd.
      assert (Hl : EventStoreErr.S <$> h' !! p = EventStoreErr.S <$> h !! p)
        by now rewrite <- !lookup_fmap, Hd.
      rewrite Hp in Hl. destruct (h' !! p); [eauto|discriminate]. }
    destruct Hp' as [e1 Hp'].
    assert (HIs : EventStoreErr.Is (Some p) (es_error (Some p)) h' = Some (true, h')).
    { rewrite (Is_run _ _ _ _ Hp'), Hp'. now rewrite bool_decide_eq_true_2. }
    now split.
Qed.

Lemma Is_spec_witness :
  (EventStoreErr.Is (Some ErrEntityNotFound) (es_error (Some ErrInvalidEntity)) package_heap
   = Some (true, package_heap)
   <-> exists q e', es_error (Some ErrInvalidEntity) = es_error (Some q)
                    /\ package_heap !! q = Some e'
                    /\ EventStoreErr.S e' = EventStoreErr.S (sentinel "entity not found"))
  /\ EventStoreErr.Is (Some ErrEntityNotFound) nil_error package_heap
     = Some (false, package_heap).
Proof.
  pose proof (Is_spec package_heap ErrEntityNotFound (sentinel "entity not found")
                (es_error (Some ErrInvalidEntity)) eq_refl) as H.
  exact (conj (proj1 H) (proj1 (proj2 H))).
Defined.

(** A nil [*EventStoreErr] wrapped in the interface is not the nil
    interface: [Is] goes on to read its description and panics. *)
Lemma Is_typed_nil h p e :
  h !! p = Some e -> EventStoreErr.Is (Some p) (es_error None) h = None.
Proof. intros Hp. now rewrite (Is_run _ _ _ _ Hp). Qed.

(** A nil receiver: false against the nil interface and a foreign error,
    a panic against an event-store error. *)
Lemma Is_nil_receiver h other :
  EventStoreErr.Is None other h
  = match other with
    | es_error _ => None
    | _ => Some (false, h)
    end.
Proof.
  unfold EventStoreErr.Is. cbn.
  destruct other as [|[q|]|msg]; try reflexivity.
  unfold go_bind, deref. now destruct (h !! q).
Qed.

End Comparison.

(** ** The sentinels *)

Section Sentinels.
Import fes.

Lemma sentinel_lookup :
  Forall2 (fun p s => package_heap !! p = Some (sentinel s)) sentinels
    ["invalid aggregate"; "invalid event"; "invalid entity";
     "event store out of space"; "event not supported";
     "failed to parse event payload"; "entity not found"].
Proof. repeat constructor. Qed.

Lemma sentinels_Is :
  Forall (fun p =>
    Forall (fun q =>
      EventStoreErr.Is (Some p) (es_error (Some q)) package_heap
      = Some (bool_decide (p = q), package_heap)) sentinels) sentinels.
Proof.
  assert (Hrun : forall p q s t,
            package_heap !! p = Some (sentinel s) ->
            package_heap !! q = Some (sentinel t) ->
            bool_decide (t = s) = bool_decide (p = q) ->
            EventStoreErr.Is (Some p) (es_error (Some q)) package_heap
            = Some (bool_decide (p = q), package_heap)).
  { intros p q s t Hp Hq Hb. rewrite (Is_run _ _ _ _ Hp), Hq. cbn.
    now rewrite Hb. }
  unfold sentinels.
  repeat first [apply Forall_nil_2 | apply Forall_cons_2];
    (eapply Hrun; [reflexivity | reflexivity | vm_compute; reflexivity]).
Qed.

(** C4.  The seven error kinds of the taxonomy (InvalidAggregate,
    InvalidEvent, InvalidEntity, EventStoreOverflow, UnsupportedEntityEvent,
    CorruptedEventPayload, EntityNotFound, in this order) are seven distinct
    [*EventStoreErr] values of the initial heap, each with a description
    and nothing else attached; the seven descriptions are pairwise
    different, and [Is] tells any two of the sentinels apart. *)
Theorem sentinels_distinct :
  sentinels = [ErrInvalidAggregate; ErrInvalidEvent; ErrInvalidEntity;
               ErrEventStoreOverflow; ErrUnsupportedEntityEvent;
               ErrCorruptedEventPayload; ErrEntityNotFound]
  /\ NoDup sentinels
  /\ List.map (fun p => package_heap !! p) sentinels
     = List.map (fun s => Some (sentinel s))
         ["invalid aggregate"; "invalid event"; "invalid entity";
          "event store out of space"; "event not supported";
          "failed to parse event payload"; "entity not found"]
  /\ NoDup (List.map (fun p => EventStoreErr.descriptions package_heap !! p)
                     sentinels)
  /\ Forall (fun p =>
       Forall (fun q =>
         EventStoreErr.Is (Some p) (es_error (Some q)) package_heap
         = Some (bool_decide (p = q), package_heap)) sentinels) sentinels.
Proof.
  split; [reflexivity|].
  split; [apply (bool_decide_unpack _); vm_compute; exact I|].
  split; [reflexivity|].
  split; [apply (bool_decide_unpack _); vm_compute; exact I|].
  exact sentinels_Is.
Qed.

(** The builders never touch a description: whatever is attached to the
    sentinels later on, they stay told apart. *)
Lemma sentinels_stay_distinct b q r h' p1 p2 :
  p1 ∈ sentinels -> p2 ∈ sentinels ->
  EventStoreErr.build b (Some q) package_heap = Some (r, h') ->
  fst <$> EventStoreErr.Is (Some p1) (es_error (Some p2)) h'
  = Some (bool_decide (p1 = p2)).
Proof.
  intros H1 H2 Hb.
  assert (He : exists e, package_heap !! p1 = Some e).
  { revert H1. unfold sentinels. rewrite !elem_of_cons, elem_of_nil.
    intros [->|[->|[->|[->|[->|[->|[->|[]]]]]]]]; eexists; reflexivity. }
  destruct He as [e He].
  apply build_descriptions in Hb as [_ Hd].
  rewrite (Is_descriptions _ _ _ e _ He Hd).
  pose proof sentinels_Is as HIs.
  rewrite Forall_forall in HIs. specialize (HIs p1 H1).
  rewrite Forall_forall in HIs. now rewrite (HIs p2 H2).
Qed.

End Sentinels.

(** ** Notifications *)

Section Notifications.
Import fes.
Context {SpanContext : Type}.
Variable Extract : gmap string string -> option SpanContext * error.
Variable ErrSpanContextNotFound : error.
Variable Labels : Event -> gmap string string.
Variable CreatedAt : Event -> Z.

(** A copy is a new object: [CopyEntity] returns a pointer that was not in
    the heap, holding what the original holds, and leaves the rest of the
    heap alone. *)
Lemma CopyEntity_fresh (h : gmap loc EntityObj) (l : loc) (o : EntityObj) :
  h !! l = Some o ->
  exists l', Entity.CopyEntity (Some l) h = Some (Some l', <[l' := o]> h)
             /\ h !! l' = None /\ l' <> l.
Proof.
  intros Hl. exists (fresh (dom h)).
  assert (Hfresh : h !! fresh (dom h) = None)
    by apply not_elem_of_dom, is_fresh.
  unfold Entity.CopyEntity, go_bind. rewrite (deref_lookup _ _ _ Hl).
  repeat split; [assumption|]. intros Heq. rewrite Heq in Hfresh. congruence.
Qed.

(** The warning is logged exactly for an extraction error other than
    "span context not found". *)
Lemma extractSpanCtx_log ev :
  snd (extractSpanCtx Extract ErrSpanContextNotFound ev) <> [] <->
  exists md, Event_Metadata ev = Some md
             /\ snd (Extract md) <> nil_error
             /\ snd (Extract md) <> ErrSpanContextNotFound.
Proof.
  unfold extractSpanCtx. destruct (Event_Metadata ev) as [md|]; cbn.
  - destruct (Extract md) as [sctx err] eqn:HE; cbn. split.
    + intros Hlog. exists md. rewrite HE. cbn.
      repeat case_bool_decide; cbn in Hlog; tauto.
    + intros (md' & [= <-] & H1 & H2). rewrite HE in H1, H2. cbn in H1, H2.
      rewrite !bool_decide_eq_true_2 by assumption. discriminate.
  - split; [congruence|]. now intros (? & ? & _).
Qed.

(** C5 (as amended).  For every entity and event, the notification built
    by [newNotification] carries the entity reference it was given, the
    event's type, the event's labels and creation time as its envelope, and
    as span context what the tracer extracted from the event's metadata
    (nothing when the event has no metadata). *)
Theorem newNotification_fields (entity : Entity) (ev : Event) :
  exists n log,
    newNotification Extract ErrSpanContextNotFound Labels CreatedAt
                    entity (Some ev) = Some (n, log)
    /\ Payload n = entity
    /\ EventType n = Event_Type ev
    /\ Notification_EmptyMsg n = NewEmptyMsg (Labels ev) (CreatedAt ev)
    /\ SpanCtx n = match Event_Metadata ev with
                   | Some md => fst (Extract md)
                   | None => None
                   end.
Proof.
  unfold newNotification, extractSpanCtx.
  destruct (Event_Metadata ev) as [md|].
  - destruct (Extract md) as [sctx err]. eexists _, _. now cbn.
  - eexists _, _. now cbn.
Qed.

End Notifications.

Section NotificationAliasing.
Import fes.

(** C5, as stated, fails.  A notification is built for the live entity of
    the cache, and the next event is then folded into that entity: the
    payload of the notification is the very pointer that was passed, not a
    copy, and it shows the later state.  (A pointer obtained with
    [CopyEntity] beforehand keeps the earlier one, see below.) *)
Lemma newNotification_payload_is_live_reference :
  exists n,
    newNotification examples.Extract examples.ErrSpanContextNotFound
                    examples.Labels examples.CreatedAt
                    (Some examples.live) (Some examples.created)
    = Some (n, [])
    /\ Payload n = Some examples.live
    /\ fst <$> deref (Payload n) examples.entities
       = Some (mkEntityObj examples.invocation1 [examples.created])
    /\ exists h',
         Entity.ApplyEvent (Some examples.live) examples.taskStarted
                           examples.entities = Some (nil_error, h')
         /\ fst <$> deref (Payload n) h'
            = Some (mkEntityObj examples.invocation1
                      [examples.created; examples.taskStarted]).
Proof.
  eexists. split; [reflexivity|]. split; [reflexivity|].
  split; [reflexivity|]. eexists. split; reflexivity.
Qed.

Lemma CopyEntity_keeps_snapshot :
  exists copy h1 h2,
    Entity.CopyEntity (Some examples.live) examples.entities = Some (copy, h1)
    /\ copy <> Some examples.live
    /\ Entity.ApplyEvent (Some examples.live) examples.taskStarted h1
       = Some (nil_error, h2)
    /\ fst <$> deref copy h2
       = Some (mkEntityObj examples.invocation1 [examples.created]).
Proof.
  eexists _, _, _. split; [reflexivity|]. split; [discriminate|].
  split; reflexivity.
Qed.

End NotificationAliasing.

(** ** The bundle: tracer configuration *)

Section Tracer.
Import bundle jaegercfg.

(** C7.  With debug mode on, the tracer configuration gets a constant
    sampler with parameter 1 (every other sampler field zero) and a
    reporter that logs spans, and keeps its remaining settings; with debug
    mode off, the configuration read from the environment, its sampler
    included, is used as it is. *)
Theorem Run_tracerConfig_debug (opts : Options) (cfg : Configuration) :
  (Debug opts = true ->
     Sampler (Run_tracerConfig opts cfg)
     = Some (mkSamplerConfig jaeger.SamplerTypeConst 1 "" 0 0)
     /\ Reporter (Run_tracerConfig opts cfg)
        = Some (mkReporterConfig 0 0 true "")
     /\ ServiceName (Run_tracerConfig opts cfg) = ServiceName cfg
     /\ Disabled (Run_tracerConfig opts cfg) = Disabled cfg
     /\ RPCMetrics (Run_tracerConfig opts cfg) = RPCMetrics cfg)
  /\ (Debug opts = false ->
        Run_tracerConfig opts cfg = cfg
        /\ Sampler (Run_tracerConfig opts cfg) = Sampler cfg).
Proof.
  unfold Run_tracerConfig. split; intros ->; cbn; auto.
Qed.

(** Whatever sampler the environment asked for, debug mode replaces it. *)
Lemma Run_tracerConfig_overrides (opts : Options) (cfg1 cfg2 : Configuration) :
  Debug opts = true ->
  Sampler (Run_tracerConfig opts cfg1) = Sampler (Run_tracerConfig opts cfg2).
Proof. unfold Run_tracerConfig. now intros ->. Qed.

End Tracer.

(** ** The bundle: event store selection *)

Section EventStoreSelection.
Import bundle.
Variable UID : string.
Variable Connect : nats.Config -> bool.
Variable Watch : nats.Config -> fes.Aggregate -> bool.
Implicit Types (h : gmap loc BackendObj) (opts : Options).

Lemma setupNatsEventStoreClient_run h (n : nats.Config) :
  setupNatsEventStoreClient UID Connect Watch
    (nats.URL n) (nats.Cluster n) (nats.Client n) h
  = if Connect (natsConfig UID n) && forallb (Watch (natsConfig UID n)) watched
    then alloc (NatsEventStore (nats.mkEventStore (natsConfig UID n) watched)) h
    else None.
Proof.
  unfold setupNatsEventStoreClient, natsConfig, watched. cbn.
  destruct (Connect _); cbn; [|reflexivity].
  destruct (Watch _ (fes.mkAggregate "" aggregates.TypeWorkflowInvocation));
    cbn; [|reflexivity].
  now destruct (Watch _ (fes.mkAggregate "" aggregates.TypeWorkflow)).
Qed.

(** C6.  The choice of backend has two outcomes.  When streaming-log
    connection parameters are given, the streaming-log event store, opened
    with these parameters, is a new object that serves as both the event
    store and the event publisher (or the start-up panics because the
    connection or a watch failed; the in-memory backend is never a
    fallback).  When they are absent, a new in-memory backend serves as
    both. *)
Theorem Run_eventStore_selection opts h :
  match Nats opts with
  | Some n =>
      if Connect (natsConfig UID n) && forallb (Watch (natsConfig UID n)) watched
      then exists l,
          Run_eventStore UID Connect Watch opts h
          = Some ((l, l),
                  <[l := NatsEventStore (nats.mkEventStore (natsConfig UID n) watched)]> h)
          /\ h !! l = None
      else Run_eventStore UID Connect Watch opts h = None
  | None =>
      exists l,
        Run_eventStore UID Connect Watch opts h
        = Some ((l, l), <[l := MemBackend mem.NewBackend]> h)
        /\ h !! l = None
  end.
Proof.
  unfold Run_eventStore, go_bind.
  assert (Hfresh : h !! fresh (dom h) = None)
    by apply not_elem_of_dom, is_fresh.
  destruct (Nats opts) as [n|].
  - rewrite setupNatsEventStoreClient_run.
    destruct (Connect (natsConfig UID n) && forallb (Watch (natsConfig UID n)) watched);
      [|reflexivity].
    exists (fresh (dom h)). now split.
  - exists (fresh (dom h)). now split.
Qed.

(** Read from the result: the two roles are always played by one object,
    and its kind is decided by the presence of the parameters alone. *)
Lemma Run_eventStore_roles opts h es esPub h' :
  Run_eventStore UID Connect Watch opts h = Some ((es, esPub), h') ->
  es = esPub
  /\ ((exists n s, Nats opts = Some n /\ h' !! es = Some (NatsEventStore s))
      \/ (Nats opts = None /\ h' !! es = Some (MemBackend mem.NewBackend))).
Proof.
  intros Hrun.
  unfold Run_eventStore, go_bind in Hrun.
  destruct (Nats opts) as [n|] eqn:HN.
  - rewrite setupNatsEventStoreClient_run in Hrun.
    destruct (_ && _); [|discriminate].
    cbn in Hrun. injection Hrun as <- <- <-. split; [reflexivity|].
    left. eexists _, _. split; [reflexivity|]. apply lookup_insert_eq.
  - cbn in Hrun. injection Hrun as <- <- <-. split; [reflexivity|].
    right. split; [reflexivity|]. apply lookup_insert_eq.
Qed.

End EventStoreSelection.

(** The chart offers the same two choices, the in-memory one by default. *)
Lemma chart_eventstore_types :
  chart.eventstore_type chart.values = chart.mem
  /\ forall t : chart.EventStoreType, t ∈ chart.supported.
Proof.
  split; [reflexivity|]. intros []; unfold chart.supported;
    rewrite !elem_of_cons; auto.
Qed.

(** ** The bundle: cache subscriptions *)

Section Subscriptions.
Import bundle.
Implicit Types (app : App) (ls : gmap string string).

Lemma In_single_Matches key value ls :
  labels.Matches (labels.In key [value]) ls = true <-> ls !! key = Some value.
Proof.
  cbn. destruct (ls !! key) as [v|].
  - rewrite bool_decide_eq_true, list_elem_of_singleton.
    split; [now intros ->|now intros [= ->]].
  - split; discriminate.
Qed.

Lemma Or_Matches a b ls :
  labels.Matches (labels.Or a b) ls = true
  <-> labels.Matches a ls = true \/ labels.Matches b ls = true.
Proof. cbn. apply orb_true_iff. Qed.

(** C8.  The subscription that the invocation cache registers with the
    event publisher accepts exactly the label sets whose [aggregate.type]
    is the invocation type or whose [parent.type] is the invocation type;
    the one the workflow cache registers accepts exactly those whose
    [aggregate.type] is the workflow type.  (The set-up itself fails only
    on a closer registered twice under the cache's name.) *)
Theorem cache_subscriptions app ls :
  match setupWorkflowInvocationCache app with
  | Some (c, app') =>
      subscriptions app' = (subscriptions app ++ [cache_sub c])%list
      /\ (labels.Matches (pubsub.LabelMatcher (cache_sub c)) ls = true
          <-> ls !! fes.PubSubLabelAggregateType
              = Some aggregates.TypeWorkflowInvocation
              \/ ls !! "parent.type" = Some aggregates.TypeWorkflowInvocation)
  | None => is_Some (closers app !! "cache-invocation")
  end
  /\ match setupWorkflowCache app with
     | Some (c, app') =>
         subscriptions app' = (subscriptions app ++ [cache_sub c])%list
         /\ (labels.Matches (pubsub.LabelMatcher (cache_sub c)) ls = true
             <-> ls !! fes.PubSubLabelAggregateType
                 = Some aggregates.TypeWorkflow)
     | None => is_Some (closers app !! "cache-workflow")
     end.
Proof.
  split.
  - unfold setupWorkflowInvocationCache, go_bind, Subscribe, RegisterCloser.
    cbv zeta.
    change (String.append "cache-" aggregates.TypeWorkflowInvocation)
      with "cache-invocation".
    unfold go_ret. cbn [closers subscriptions].
    destruct (closers app !! "cache-invocation"); [eauto|].
    cbv beta iota. split; [reflexivity|].
    cbn [cache_sub pubsub.LabelMatcher].
    rewrite Or_Matches, !In_single_Matches. reflexivity.
  - unfold setupWorkflowCache, go_bind, Subscribe, RegisterCloser.
    cbv zeta.
    change (String.append "cache-" aggregates.TypeWorkflow)
      with "cache-workflow".
    unfold go_ret. cbn [closers subscriptions].
    destruct (closers app !! "cache-workflow"); [eauto|].
    cbv beta iota. split; [reflexivity|].
    cbn [cache_sub pubsub.LabelMatcher].
    now rewrite In_single_Matches.
Qed.

(** On sample events: an invocation's own event and a task event whose
    parent is the invocation reach the invocation cache, a workflow event
    does not; the workflow cache sees the workflow event only. *)
Example subscriptions_on_events :
  let events := [examples.created; examples.taskStarted; examples.workflowCreated] in
  let accepts (setup : Go App SubscribedCache) :=
    (fun r => List.map (fun e => labels.Matches (pubsub.LabelMatcher (cache_sub (fst r)))
                                                (examples.Labels e)) events)
    <$> setup (mkApp ∅ []) in
  accepts setupWorkflowInvocationCache = Some [true; true; false]
  /\ accepts setupWorkflowCache = Some [false; false; true].
Proof. split; reflexivity. Qed.

(** A second set-up of the same cache finds its closer registered and
    panics. *)
Lemma setupWorkflowInvocationCache_twice app c app' :
  setupWorkflowInvocationCache app = Some (c, app') ->
  setupWorkflowInvocationCache app' = None.
Proof.
  unfold setupWorkflowInvocationCache, go_bind, Subscribe, RegisterCloser.
  cbv zeta.
  change (String.append "cache-" aggregates.TypeWorkflowInvocation)
    with "cache-invocation".
  unfold go_ret. cbn [closers subscriptions].
  destruct (closers app !! "cache-invocation"); [discriminate|].
  intros [= <- <-]. cbn [closers]. now rewrite lookup_insert_eq.
Qed.

End Subscriptions.

(** ** The scheduler's protocol *)

Section Protocol.
Import scheduler.

Lemma lookup_file_messages :
  List.map (fun m => message_name <$> lookup_message file_messages (message_name m))
           file_messages
  = List.map (fun m => Some (message_name m)) file_messages.
Proof. reflexivity. Qed.

(** C1.  A Schedule has exactly the attributes of the specification: an
    invocation id, a createdAt timestamp, an optional abort carrying a
    reason, a list of runTask actions each carrying a task id and nothing
    else, and a list of prepareTask actions each carrying a task id and an
    expected start time.  The attributes are read off the protocol file
    with every message reference resolved, at any nesting allowance of two
    or more. *)
Theorem Schedule_attributes (n : nat) :
  message_attributes (2 + n) file_messages Schedule_message
  = Some Schedule_attributes_spec
  /\ List.map field_name (message_fields Schedule_message)
     = ["invocationId"; "createdAt"; "abort"; "runTasks"; "prepareTasks"]
  /\ List.map message_fields
       [AbortAction_message; RunTaskAction_message; PrepareTaskAction_message]
     = [ [mkField Singular TString "reason" 1];
         [mkField Singular TString "taskID" 1];
         [mkField Singular TString "taskID" 1;
          mkField Singular (TMessage Timestamp_name) "expectedAt" 2] ].
Proof.
  split; [|split; reflexivity].
  unfold Schedule_attributes_spec. cbn [Nat.add message_attributes].
  reflexivity.
Qed.

(** One level of nesting is not enough to resolve the actions. *)
Lemma Schedule_attributes_fuel :
  message_attributes 1 file_messages Schedule_message = None.
Proof. reflexivity. Qed.

End Protocol.

(** * Further properties of the code *)

(** ** [EventStoreErr]: comparison *)

Section MoreComparison.
Import fes.
Implicit Types (h : gmap loc EventStoreErr.t) (p q r : loc).

(** X1.  Among the event-store errors of a heap, [Is] is an equivalence:
    every error is itself, and the comparison is symmetric and
    transitive. *)
Theorem Is_equivalence h p q r e1 e2 e3 :
  h !! p = Some e1 -> h !! q = Some e2 -> h !! r = Some e3 ->
  let same a b :=
    EventStoreErr.Is (Some a) (es_error (Some b)) h = Some (true, h) in
  same p p /\ (same p q -> same q p) /\ (same p q -> same q r -> same p r).
Proof.
  intros Hp Hq Hr same. unfold same.
  assert (Hrun : forall a b ea eb, h !! a = Some ea -> h !! b = Some eb ->
            (EventStoreErr.Is (Some a) (es_error (Some b)) h = Some (true, h)
             <-> EventStoreErr.S eb = EventStoreErr.S ea)).
  { intros a b ea eb Ha Hb. rewrite (Is_run _ _ _ _ Ha), Hb. split.
    - intros [= H]. now apply bool_decide_eq_true in H.
    - intros H. now rewrite bool_decide_eq_true_2. }
  rewrite (Hrun _ _ _ _ Hp Hp), (Hrun _ _ _ _ Hp Hq), (Hrun _ _ _ _ Hq Hp),
    (Hrun _ _ _ _ Hq Hr), (Hrun _ _ _ _ Hp Hr).
  repeat split; congruence.
Qed.

Lemma Is_equivalence_witness :
  let h := examples.heap_with_own_error in
  let same a b :=
    EventStoreErr.Is (Some a) (es_error (Some b)) h = Some (true, h) in
  same ErrEntityNotFound ErrEntityNotFound
  /\ (same ErrEntityNotFound examples.own_error ->
      same examples.own_error ErrEntityNotFound)
  /\ (same ErrEntityNotFound examples.own_error ->
      same examples.own_error ErrEntityNotFound ->
      same ErrEntityNotFound ErrEntityNotFound).
Proof.
  exact (Is_equivalence examples.heap_with_own_error
           ErrEntityNotFound examples.own_error ErrEntityNotFound
           _ _ _ eq_refl eq_refl eq_refl).
Defined.

(** X2.  Nil on either side of [Is].  A nil receiver compared with the nil
    interface or with a foreign error gives false; compared with any
    event-store error it panics.  A non-nil receiver compared with a nil
    [*EventStoreErr] held in a non-nil interface panics as well: the guard
    at the top only catches the nil interface. *)
Theorem Is_nil_cases h p e :
  h !! p = Some e ->
  EventStoreErr.Is None nil_error h = Some (false, h)
  /\ (forall msg, EventStoreErr.Is None (other_error msg) h = Some (false, h))
  /\ (forall x, EventStoreErr.Is None (es_error x) h = None)
  /\ EventStoreErr.Is (Some p) nil_error h = Some (false, h)
  /\ EventStoreErr.Is (Some p) (es_error None) h = None.
Proof.
  intros Hp.
  split; [now rewrite Is_nil_receiver|].
  split; [intros msg; now rewrite Is_nil_receiver|].
  split; [intros x; now rewrite Is_nil_receiver|].
  split.
  - exact (Is_run _ _ _ nil_error Hp).
  - exact (Is_run _ _ _ (es_error None) Hp).
Qed.

Lemma Is_nil_cases_witness :
  EventStoreErr.Is None nil_error package_heap = Some (false, package_heap)
  /\ EventStoreErr.Is (Some ErrInvalidEvent) (es_error None) package_heap = None.
Proof.
  pose proof (Is_nil_cases package_heap ErrInvalidEvent _ eq_refl) as H.
  exact (conj (proj1 H) (proj2 (proj2 (proj2 (proj2 H))))).
Defined.

End MoreComparison.

(** ** [EventStoreErr]: the builders in sequence *)

Section BuilderChains.
Import fes.
Implicit Types (h : gmap loc EventStoreErr.t) (p : loc) (e : EventStoreErr.t).
Local Open Scope go_scope.

(** The first aggregate there is among the one attached already and the
    ones of the events, in this order. *)
Lemma aggregate_after_twice e ev1 ev2 :
  EventStoreErr.aggregate_after
    (EventStoreErr.mk (EventStoreErr.S e) (EventStoreErr.aggregate_after e ev1)
                      (Some ev1) (EventStoreErr.C e)) ev2
  = match EventStoreErr.K e, Event_Aggregate ev1 with
    | Some k, _ => Some k
    | None, Some a => Some a
    | None, None => Event_Aggregate ev2
    end.
Proof.
  unfold EventStoreErr.aggregate_after. cbn.
  destruct (EventStoreErr.K e); [reflexivity|].
  now destruct (Event_Aggregate ev1).
Qed.

(** X3.  [WithEvent] called twice on one error: the second event replaces
    the first, but the aggregate stays the one of the first event (or the
    one attached before).  An error whose context is refreshed with
    [WithEvent] alone therefore keeps reporting the aggregate of the first
    event it was given. *)
Theorem WithEvent_twice h p e ev1 ev2 :
  h !! p = Some e ->
  exists h' e',
    (let* r := EventStoreErr.WithEvent (Some p) (Some ev1) in
     EventStoreErr.WithEvent r (Some ev2)) h = Some (Some p, h')
    /\ h' !! p = Some e'
    /\ EventStoreErr.E e' = Some ev2
    /\ EventStoreErr.K e'
       = match EventStoreErr.K e, Event_Aggregate ev1 with
         | Some k, _ => Some k
         | None, Some a => Some a
         | None, None => Event_Aggregate ev2
         end
    /\ (forall a, EventStoreErr.K e = None -> Event_Aggregate ev1 = Some a ->
                  EventStoreErr.K e' = Some a)
    /\ (forall q, q <> p -> h' !! q = h !! q).
Proof.
  intros Hp. unfold go_bind.
  rewrite (WithEvent_run _ _ _ ev1 Hp).
  rewrite (WithEvent_run _ p _ ev2 (lookup_insert_eq _ _ _)).
  rewrite insert_insert_eq. eexists _, _.
  split; [reflexivity|]. split; [apply lookup_insert_eq|].
  cbn [EventStoreErr.E EventStoreErr.K EventStoreErr.S EventStoreErr.C].
  rewrite aggregate_after_twice.
  repeat split.
  - intros a -> ->. reflexivity.
  - intros q Hq. now apply lookup_insert_ne.
Qed.

Lemma WithEvent_twice_witness :
  exists h' e',
    (let* r := EventStoreErr.WithEvent (Some ErrInvalidEvent) (Some examples.created) in
     EventStoreErr.WithEvent r (Some examples.workflowCreated)) package_heap
    = Some (Some ErrInvalidEvent, h')
    /\ h' !! ErrInvalidEvent = Some e'
    /\ EventStoreErr.E e' = Some examples.workflowCreated
    /\ EventStoreErr.K e' = Some examples.invocation1.
Proof.
  destruct (WithEvent_twice package_heap ErrInvalidEvent _
              examples.created examples.workflowCreated eq_refl)
    as (h' & e' & H1 & H2 & H3 & H4 & _).
  exists h', e'. auto.
Defined.

(** X4.  An aggregate given explicitly wins over the one of an event, in
    whichever order [WithAggregate] and [WithEvent] are called; both orders
    leave the same error behind. *)
Theorem explicit_aggregate_wins h p e a ev :
  h !! p = Some e ->
  let result :=
    Some (Some p,
          <[p := EventStoreErr.mk (EventStoreErr.S e) (Some a) (Some ev)
                                  (EventStoreErr.C e)]> h) in
  (let* r := EventStoreErr.WithAggregate (Some p) (Some a) in
   EventStoreErr.WithEvent r (Some ev)) h = result
  /\ (let* r := EventStoreErr.WithEvent (Some p) (Some ev) in
      EventStoreErr.WithAggregate r (Some a)) h = result.
Proof.
  intros Hp result. unfold result, go_bind. split.
  - rewrite (WithAggregate_run _ _ _ _ Hp).
    rewrite (WithEvent_run _ p _ ev (lookup_insert_eq _ _ _)).
    now rewrite insert_insert_eq.
  - rewrite (WithEvent_run _ _ _ ev Hp).
    rewrite (WithAggregate_run _ p _ _ (lookup_insert_eq _ _ _)).
    now rewrite insert_insert_eq.
Qed.

Lemma explicit_aggregate_wins_witness :
  (let* r := EventStoreErr.WithAggregate (Some ErrInvalidEvent)
               (Some examples.workflow1) in
   EventStoreErr.WithEvent r (Some examples.created)) package_heap
  = (let* r := EventStoreErr.WithEvent (Some ErrInvalidEvent)
                 (Some examples.created) in
     EventStoreErr.WithAggregate r (Some examples.workflow1)) package_heap.
Proof.
  destruct (explicit_aggregate_wins package_heap ErrInvalidEvent _
              examples.workflow1 examples.created eq_refl) as [H1 H2].
  exact (eq_trans H1 (eq_sym H2)).
Defined.

(** X5.  A nil event.  [WithEvent(nil)] on an error that has an aggregate
    clears the event and keeps everything else; on an error without an
    aggregate it panics (it reads the aggregate of the nil event). *)
Theorem WithEvent_nil h p e :
  h !! p = Some e ->
  (EventStoreErr.K e = None -> EventStoreErr.WithEvent (Some p) None h = None)
  /\ (forall k, EventStoreErr.K e = Some k ->
        EventStoreErr.WithEvent (Some p) None h
        = Some (Some p,
                <[p := EventStoreErr.mk (EventStoreErr.S e) (Some k) None
                                        (EventStoreErr.C e)]> h)).
Proof.
  intros Hp. rewrite (WithEvent_nil_event _ _ _ Hp). split.
  - now intros ->.
  - intros k Hk. rewrite Hk. unfold EventStoreErr.set_E. now rewrite Hk.
Qed.

Lemma WithEvent_nil_witness :
  EventStoreErr.WithEvent (Some ErrInvalidEvent) None package_heap = None
  /\ is_Some (EventStoreErr.WithEvent (Some examples.own_error) None
                examples.heap_with_own_error).
Proof.
  split.
  - exact (proj1 (WithEvent_nil package_heap ErrInvalidEvent _ eq_refl) eq_refl).
  - rewrite (proj2 (WithEvent_nil examples.heap_with_own_error
                      examples.own_error _ eq_refl) _ eq_refl).
    eexists. reflexivity.
Defined.

(** X6.  The message of an error.  Without an aggregate it is the
    description; after [WithAggregate] it is the formatted aggregate, a
    colon and the description; a cause attached with [WithError] and an
    event attached with [WithEvent] to an error that has an aggregate
    never show in it. *)
Theorem Error_after_builders h p e :
  h !! p = Some e ->
  (EventStoreErr.K e = None ->
   EventStoreErr.Error (Some p) h = Some (EventStoreErr.S e, h))
  /\ (forall a,
        (let* r := EventStoreErr.WithAggregate (Some p) (Some a) in
         EventStoreErr.Error r) h
        = Some ((Aggregate_Format a ++ ": " ++ EventStoreErr.S e)%string,
                <[p := EventStoreErr.set_K (Some a) e]> h))
  /\ (forall c,
        fst <$> (let* r := EventStoreErr.WithError (Some p) c in
                 EventStoreErr.Error r) h
        = fst <$> EventStoreErr.Error (Some p) h)
  /\ (forall ev k, EventStoreErr.K e = Some k ->
        fst <$> (let* r := EventStoreErr.WithEvent (Some p) ev in
                 EventStoreErr.Error r) h
        = fst <$> EventStoreErr.Error (Some p) h).
Proof.
  intros Hp.
  assert (HErr : forall h0 e0, h0 !! p = Some e0 ->
            EventStoreErr.Error (Some p) h0
            = Some (match EventStoreErr.K e0 with
                    | None => EventStoreErr.S e0
                    | Some k => (Aggregate_Format k ++ ": " ++ EventStoreErr.S e0)%string
                    end, h0)).
  { intros h0 e0 H0. unfold EventStoreErr.Error, go_bind.
    rewrite (deref_lookup _ _ _ H0). now destruct (EventStoreErr.K e0). }
  repeat split.
  - intros HK. now rewrite (HErr _ _ Hp), HK.
  - intros a. unfold go_bind. rewrite (WithAggregate_run _ _ _ _ Hp).
    now rewrite (HErr _ _ (lookup_insert_eq _ _ _)).
  - intros c. unfold go_bind. rewrite (WithError_run _ _ _ _ Hp).
    now rewrite (HErr _ _ (lookup_insert_eq _ _ _)), (HErr _ _ Hp).
  - intros [ev|] k HK; unfold go_bind.
    + rewrite (WithEvent_run _ _ _ _ Hp).
      rewrite (HErr _ _ (lookup_insert_eq _ _ _)), (HErr _ _ Hp).
      cbn. unfold EventStoreErr.aggregate_after. now rewrite HK.
    + rewrite (WithEvent_nil_event _ _ _ Hp), HK.
      rewrite (HErr _ _ (lookup_insert_eq _ _ _)), (HErr _ _ Hp).
      cbn. now rewrite HK.
Qed.

Lemma Error_after_builders_witness :
  EventStoreErr.Error (Some ErrEntityNotFound) package_heap
  = Some ("entity not found", package_heap)
  /\ fst <$> (let* r := EventStoreErr.WithAggregate (Some ErrEntityNotFound)
                          (Some examples.workflow1) in
              EventStoreErr.Error r) package_heap
     = Some (Aggregate_Format examples.workflow1 ++ ": entity not found")%string.
Proof.
  pose proof (Error_after_builders package_heap ErrEntityNotFound _ eq_refl)
    as (H1 & H2 & _).
  split; [exact (H1 eq_refl)|].
  now rewrite (H2 examples.workflow1).
Defined.

End BuilderChains.

(** ** Notifications: what the tracer may return *)

Section NotificationErrors.
Import fes.
Context {SpanContext : Type}.
Variable Extract : gmap string string -> option SpanContext * error.
Variable ErrSpanContextNotFound : error.
Variable Labels : Event -> gmap string string.
Variable CreatedAt : Event -> Z.

(** X7.  A failing extraction never costs the notification.  For an event
    with metadata, whatever the tracer returns, [newNotification] returns a
    notification whose span context is the one the tracer returned with
    the error; it logs one warning when the error is neither nil nor "span
    context not found" and nothing otherwise.  An event without metadata
    is never shown to the tracer, and a nil event panics. *)
Theorem newNotification_extract_errors (entity : Entity) (ev : Event) :
  newNotification Extract ErrSpanContextNotFound Labels CreatedAt entity None
  = None
  /\ exists n log,
      newNotification Extract ErrSpanContextNotFound Labels CreatedAt
                      entity (Some ev) = Some (n, log)
      /\ (length log <= 1)%nat
      /\ match Event_Metadata ev with
         | Some md =>
             SpanCtx n = fst (Extract md)
             /\ (log = [] <-> snd (Extract md) = nil_error
                              \/ snd (Extract md) = ErrSpanContextNotFound)
         | None => SpanCtx n = None /\ log = []
         end.
Proof.
  split; [reflexivity|].
  unfold newNotification, extractSpanCtx.
  destruct (Event_Metadata ev) as [md|].
  - destruct (Extract md) as [sctx err]. eexists _, _.
    split; [reflexivity|]. cbn.
    repeat case_bool_decide; cbn; (split; [lia|]); (split; [reflexivity|]);
      split; intros; try discriminate; try tauto; auto.
  - eexists _, _. split; [reflexivity|]. cbn. auto.
Qed.

End NotificationErrors.

(** ** The application's closers *)

Section Closers.
Import bundle.
Implicit Types (app : App) (name : string) (c : SubscribedCache).

(** X8.  [RegisterCloser] on a free name records the closer under that
    name and touches nothing else; afterwards the name is taken, and any
    further registration under it panics, whatever the closer.  On a taken
    name it panics. *)
Theorem RegisterCloser_once app name c :
  match RegisterCloser name c app with
  | Some (_, app') =>
      closers app !! name = None
      /\ closers app' !! name = Some c
      /\ (forall n, n <> name -> closers app' !! n = closers app !! n)
      /\ subscriptions app' = subscriptions app
      /\ (forall c', RegisterCloser name c' app' = None)
  | None => is_Some (closers app !! name)
  end.
Proof.
  unfold RegisterCloser. destruct (closers app !! name) eqn:Hn; [eauto|].
  cbn. split; [reflexivity|]. split; [apply lookup_insert_eq|].
  split; [intros n Hne; now apply lookup_insert_ne|].
  split; [reflexivity|]. intros c'. now rewrite lookup_insert_eq.
Qed.

Variable closeErr : SubscribedCache -> option string.

(** The loop of [Close], from any intermediate state. *)
Lemma Close_fold order log errorOccured :
  List.fold_left (Close_visit closeErr) order (log, errorOccured)
  = ((log ++ List.map (close_line closeErr) order)%list,
     errorOccured || negb (forallb (closes_cleanly closeErr) order)).
Proof.
  revert log errorOccured.
  induction order as [|[name c] order IH]; intros log errorOccured; cbn.
  - now rewrite app_nil_r, orb_false_r.
  - unfold Close_visit at 2, close_line at 1, closes_cleanly at 1. cbn.
    destruct (closeErr c) as [err|]; rewrite IH, <- app_assoc; cbn.
    + now rewrite orb_true_r.
    + reflexivity.
Qed.

(** X9.  Closing the application visits every registered closer once,
    in whatever order the map is walked: the log has one line per closer,
    under its name, and the loop does not stop at a failure.  The result is
    nil exactly when every closer closed without an error. *)
Theorem Close_all app order :
  order ≡ₚ map_to_list (closers app) ->
  let result := Close closeErr order in
  length (fst result) = size (closers app)
  /\ (forall name, is_Some (closers app !! name)
        <-> Infof name ∈ fst result \/ exists err, Errorf name err ∈ fst result)
  /\ (snd result = fes.nil_error
      <-> forall name c, closers app !! name = Some c -> closeErr c = None).
Proof.
  intros Hperm result. unfold result, Close.
  rewrite Close_fold. cbn [fst snd Datatypes.app orb].
  assert (Hin : forall name c, (name, c) ∈ order <-> closers app !! name = Some c).
  { intros name c. rewrite Hperm. apply elem_of_map_to_list. }
  split; [|split].
  - rewrite length_map, Hperm. apply length_map_to_list.
  - intros name. split.
    + intros [c Hc]. apply Hin in Hc.
      unfold close_line. destruct (closeErr c) as [err|] eqn:Herr.
      * right. exists err. apply list_elem_of_In, in_map_iff.
        exists (name, c). cbn. rewrite Herr.
        split; [reflexivity|now apply list_elem_of_In].
      * left. apply list_elem_of_In, in_map_iff.
        exists (name, c). cbn. rewrite Herr.
        split; [reflexivity|now apply list_elem_of_In].
    + intros [H|[err H]]; apply list_elem_of_In, in_map_iff in H;
        destruct H as ([n c] & Hline & Hentry);
        apply list_elem_of_In, Hin in Hentry;
        unfold close_line in Hline; cbn in Hline;
        destruct (closeErr c); inversion Hline; subst; eauto.
  - destruct (forallb (closes_cleanly closeErr) order) eqn:Hall; cbn.
    + split; [|reflexivity]. intros _ name c Hc.
      apply Hin, list_elem_of_In in Hc.
      rewrite forallb_forall in Hall. specialize (Hall _ Hc).
      now apply bool_decide_eq_true in Hall.
    + split; [discriminate|]. intros Hclean. exfalso.
      assert (Htrue : forallb (closes_cleanly closeErr) order = true); [|congruence].
      apply forallb_forall. intros [name c] Hentry.
      apply bool_decide_eq_true. cbn.
      apply (Hclean name), Hin. now apply list_elem_of_In.
Qed.

End Closers.

Lemma Close_all_witness :
  let result :=
    bundle.Close (fun _ => Some "timeout")
                 [("cache-invocation", examples.invocationCache)] in
  length (fst result) = size (bundle.closers examples.app1)
  /\ snd result <> fes.nil_error.
Proof.
  pose proof (Close_all (fun _ => Some "timeout") examples.app1
                [("cache-invocation", examples.invocationCache)]) as H.
  destruct H as (Hlen & _ & Hnil).
  - unfold examples.app1. cbn. now rewrite map_to_list_singleton.
  - split; [exact Hlen|]. intros Hres.
    pose proof (proj1 Hnil Hres "cache-invocation" examples.invocationCache
                  eq_refl) as Hclean.
    discriminate Hclean.
Defined.

(** ** The lazy stores and the wiring of [Run] *)

Section Stores.
Import bundle.
Local Open Scope go_scope.

Lemma setupWorkflowInvocationCache_run app :
  setupWorkflowInvocationCache app
  = match closers app !! "cache-invocation" with
    | Some _ => None
    | None =>
        let sub := pubsub.mkSubscriptionOptions 50
                     (labels.Or
                        (labels.In fes.PubSubLabelAggregateType
                                   [aggregates.TypeWorkflowInvocation])
                        (labels.In "parent.type"
                                   [aggregates.TypeWorkflowInvocation])) in
        let c := mkSubscribedCache aggregates.TypeWorkflowInvocation
                                   "NewInvocationEntity" sub in
        Some (c, mkApp (<["cache-invocation" := c]> (closers app))
                       (subscriptions app ++ [sub])%list)
    end.
Proof.
  unfold setupWorkflowInvocationCache, go_bind, Subscribe, RegisterCloser.
  cbv zeta.
  change (String.append "cache-" aggregates.TypeWorkflowInvocation)
    with "cache-invocation".
  cbn [closers subscriptions]. now destruct (closers app !! "cache-invocation").
Qed.

Lemma setupWorkflowCache_run app :
  setupWorkflowCache app
  = match closers app !! "cache-workflow" with
    | Some _ => None
    | None =>
        let sub := pubsub.mkSubscriptionOptions 10
                     (labels.In fes.PubSubLabelAggregateType
                                [aggregates.TypeWorkflow]) in
        let c := mkSubscribedCache aggregates.TypeWorkflow
                                   "NewWorkflowEntity" sub in
        Some (c, mkApp (<["cache-workflow" := c]> (closers app))
                       (subscriptions app ++ [sub])%list)
    end.
Proof.
  unfold setupWorkflowCache, go_bind, Subscribe, RegisterCloser.
  cbv zeta.
  change (String.append "cache-" aggregates.TypeWorkflow) with "cache-workflow".
  cbn [closers subscriptions]. now destruct (closers app !! "cache-workflow").
Qed.

(** X10.  The closures returned by [getInvocationStore] and
    [getWorkflowStore] do not remember the store they build: a call leaves
    the captured variable as it found it, so from the state the closures
    are created in every call sets the cache up anew.  The first call
    succeeds; the second finds the cache's closer registered and
    panics. *)
Theorem stores_not_memoized (app : App) :
  (forall s i s', wfiCache s = Some (i, s') ->
                  invocations s' = invocations s /\ workflows s' = workflows s)
  /\ (forall s w s', wfCache s = Some (w, s') ->
                     invocations s' = invocations s /\ workflows s' = workflows s)
  /\ is_Some (wfiCache Run_init)
  /\ is_Some (wfCache Run_init)
  /\ (wfiCache >> wfiCache) (mkRunState app None None) = None
  /\ (wfCache >> wfCache) (mkRunState app None None) = None.
Proof.
  split; [|split; [|split; [|split; [|split]]]].
  - intros s i s'. unfold wfiCache, go_bind, liftApp.
    destruct (invocations s) eqn:Hi; [intros [= _ <-]; auto|].
    destruct (setupWorkflowInvocationCache (run_app s)) as [[c app']|];
      [|discriminate].
    intros [= _ <-]. cbn. auto.
  - intros s w s'. unfold wfCache, go_bind, liftApp.
    destruct (workflows s) eqn:Hw; [intros [= _ <-]; auto|].
    destruct (setupWorkflowCache (run_app s)) as [[c app']|]; [|discriminate].
    intros [= _ <-]. cbn. auto.
  - eexists. reflexivity.
  - eexists. reflexivity.
  - unfold wfiCache, go_bind, liftApp. cbn [invocations workflows run_app].
    rewrite setupWorkflowInvocationCache_run.
    destruct (closers app !! "cache-invocation"); [reflexivity|].
    cbn [invocations workflows run_app go_ret].
    rewrite setupWorkflowInvocationCache_run. cbn [closers].
    now rewrite lookup_insert_eq.
  - unfold wfCache, go_bind, liftApp. cbn [invocations workflows run_app].
    rewrite setupWorkflowCache_run.
    destruct (closers app !! "cache-workflow"); [reflexivity|].
    cbn [invocations workflows run_app go_ret].
    rewrite setupWorkflowCache_run. cbn [closers].
    now rewrite lookup_insert_eq.
Qed.

Variable workflows_Name : string.
Variable es : loc.

(** X11.  Which options [Run] survives.  Every component that needs a
    store calls the store's closure, and a second call on one closure
    panics (a closer registered twice).  So the wiring of [Run] gets
    through exactly when the Fission integration is off (it alone asks for
    the invocation store twice), at most one of internal runtime,
    invocation controller and invocation API is on, and at most one of
    workflow controller, invocation controller and workflow API is on. *)
Theorem Run_wiring_survives (opts : Options) :
  is_Some (Run_wiring workflows_Name es opts Run_init)
  <-> Fission opts = None
      /\ (Nat.b2n (InternalRuntime opts) + Nat.b2n (InvocationController opts)
          + Nat.b2n (InvocationAPI opts) <= 1)%nat
      /\ (Nat.b2n (WorkflowController opts) + Nat.b2n (InvocationController opts)
          + Nat.b2n (WorkflowAPI opts) <= 1)%nat.
Proof.
  destruct opts as [n f ir ic wc aa wa hg ia m d].
  cbn [Fission InternalRuntime InvocationController WorkflowController
       WorkflowAPI InvocationAPI].
  destruct f as [f|], ir, ic, wc, wa, ia; cbn [Nat.b2n Nat.add];
    (split;
     [ intros [w Hw]; vm_compute in Hw; try discriminate Hw;
       repeat split; lia
     | intros (HF & H1 & H2); try discriminate HF; try lia;
       eexists; vm_compute; reflexivity ]).
Qed.

#[local] Set Warnings "-clear-no-such-hyp".

(** X12.  The function runtimes.  The first block of [Run] never panics;
    every namespace it gives a resolver also has a runtime; the resolvers
    are "internal" with the internal runtime and "fission" with the
    Fission integration, and nothing else; and no runtime at all is
    registered exactly when neither is configured. *)
Theorem Run_functionRuntimes_maps (opts : Options) :
  exists runtimes resolvers s',
    Run_functionRuntimes workflows_Name opts Run_init
    = Some ((runtimes, resolvers), s')
    /\ dom resolvers ⊆ dom runtimes
    /\ (forall k, k ∈ dom resolvers
          <-> (k = "internal" /\ InternalRuntime opts = true)
              \/ (k = "fission" /\ Fission opts <> None))
    /\ (runtimes = ∅ <-> InternalRuntime opts = false /\ Fission opts = None).
Proof.
  unfold Run_functionRuntimes, go_bind.
  destruct (InternalRuntime opts) eqn:HI, (Fission opts) as [f|] eqn:HF;
    cbn [orb]; try rewrite bool_decide_eq_true_2 by discriminate;
    try rewrite bool_decide_eq_false_2 by (intros H; now apply H);
    cbn; eexists _, _, _; (split; [reflexivity|]).
  - split; [set_solver|]. split.
    + intros k. rewrite !dom_insert, dom_empty. set_solver.
    + split; [intros H; now apply insert_non_empty in H|intros [[=] _]].
  - split; [set_solver|]. split.
    + intros k. rewrite !dom_insert, dom_empty. set_solver.
    + split; [intros H; now apply insert_non_empty in H|intros [[=] _]].
  - split; [set_solver|]. split.
    + intros k. rewrite !dom_insert, dom_empty. set_solver.
    + split; [intros H; now apply insert_non_empty in H|intros [_ [=]]].
  - split; [set_solver|]. split.
    + intros k. rewrite dom_empty. set_solver.
    + split; auto.
Qed.

End Stores.

(** ** The HTTP gateway *)

Section GatewayProperties.
Import bundle.
Variable registerOK : GatewayEndpoint -> string -> bool.
Local Open Scope go_scope.

Lemma registerEndpoint_optional (on : bool) ep mux :
  (if bool_decide ((if on then gRPCAddress else "") <> "")
   then registerEndpoint registerOK ep (if on then gRPCAddress else "")
   else go_ret tt) mux
  = if on then
      if registerOK ep gRPCAddress
      then Some (tt, (mux ++ [(ep, gRPCAddress)])%list) else None
    else Some (tt, mux).
Proof. now destruct on. Qed.

(** X13.  With the HTTP gateway on, the gateway forwards to exactly the
    gRPC APIs that are enabled, each at the gRPC address, registered in the
    order admin, workflow, invocation after what the mux held before; the
    set-up panics when the registration of an enabled API fails, and only
    then.  (With no API enabled the gateway is served all the same, with
    no endpoint.) *)
Theorem Run_httpGateway_endpoints (opts : Options) mux :
  HTTPGateway opts = true ->
  let enabled :=
    List.filter (endpoint_enabled opts)
                [AdminEndpoint; WorkflowEndpoint; InvocationEndpoint] in
  Run_httpGateway registerOK opts mux
  = if forallb (fun ep => registerOK ep gRPCAddress) enabled
    then Some (tt, (mux ++ List.map (fun ep => (ep, gRPCAddress)) enabled)%list)
    else None.
Proof.
  intros HG enabled. unfold enabled, Run_httpGateway, serveHTTPGateway, go_bind.
  rewrite HG. cbn [orb List.filter endpoint_enabled].
  rewrite registerEndpoint_optional.
  destruct (AdminAPI opts); cbn [List.filter forallb List.map].
  - destruct (registerOK AdminEndpoint gRPCAddress); cbn [andb]; [|reflexivity].
    rewrite registerEndpoint_optional.
    destruct (WorkflowAPI opts); cbn [List.filter forallb List.map].
    + destruct (registerOK WorkflowEndpoint gRPCAddress); cbn [andb];
        [|reflexivity].
      rewrite registerEndpoint_optional.
      destruct (InvocationAPI opts); cbn.
      * destruct (registerOK InvocationEndpoint gRPCAddress); cbn;
          [|reflexivity].
        now rewrite <- !app_assoc.
      * now rewrite <- !app_assoc.
    + rewrite registerEndpoint_optional.
      destruct (InvocationAPI opts); cbn.
      * destruct (registerOK InvocationEndpoint gRPCAddress); cbn;
          [|reflexivity].
        now rewrite <- !app_assoc.
      * reflexivity.
  - rewrite registerEndpoint_optional.
    destruct (WorkflowAPI opts); cbn [List.filter forallb List.map].
    + destruct (registerOK WorkflowEndpoint gRPCAddress); cbn [andb];
        [|reflexivity].
      rewrite registerEndpoint_optional.
      destruct (InvocationAPI opts); cbn.
      * destruct (registerOK InvocationEndpoint gRPCAddress); cbn;
          [|reflexivity].
        now rewrite <- !app_assoc.
      * reflexivity.
    + rewrite registerEndpoint_optional.
      destruct (InvocationAPI opts); cbn.
      * now destruct (registerOK InvocationEndpoint gRPCAddress).
      * now rewrite app_nil_r.
Qed.

End GatewayProperties.

Lemma Run_httpGateway_endpoints_witness :
  bundle.Run_httpGateway (fun _ _ => true) examples.only_internal []
  = Some (tt, [(bundle.AdminEndpoint, bundle.gRPCAddress)]).
Proof.
  exact (Run_httpGateway_endpoints (fun _ _ => true) examples.only_internal []
           eq_refl).
Defined.

(** ** The tracing wrapper *)

Section TracingProperties.
Import bundle.
Variable ExtractHTTP : gmap string string -> bool * fes.error.
Variable ErrSpanContextNotFound : fes.error.
Variable h : Request -> bool.

(** X14.  The wrapped handler serves every request exactly once, whatever
    the tracer makes of the headers.  When the extraction error is nil or
    "span context not found", a span is started before and finished after
    the handler, also when the handler panics, and the handler sees the
    request with the span in its context; on any other error no span is
    started, the error is logged, and the handler sees the request as it
    came.  Method, URL and headers reach the handler unchanged, and the
    wrapper returns exactly when the handler does. *)
Theorem tracingWrapper_serves_once (r : Request) :
  let result := tracingWrapper ExtractHTTP ErrSpanContextNotFound h r in
  let traced :=
    bool_decide (snd (ExtractHTTP (Header r)) = fes.nil_error
                 \/ snd (ExtractHTTP (Header r)) = ErrSpanContextNotFound) in
  exists r',
    List.filter (fun e => match e with ServeHTTP _ => true | _ => false end)
                (fst result) = [ServeHTTP r']
    /\ snd result = h r'
    /\ Method r' = Method r /\ URL r' = URL r /\ Header r' = Header r
    /\ spanInContext r' = (traced || spanInContext r)
    /\ (if traced
        then exists parent,
            fst result = [StartSpan parent (Method r) (URL r); ServeHTTP r';
                          FinishSpan]
        else fst result = [LogExtractError; ServeHTTP r']).
Proof.
  cbv zeta. unfold tracingWrapper.
  destruct (ExtractHTTP (Header r)) as [parent err]. cbn [snd].
  destruct (bool_decide (err = fes.nil_error \/ err = ErrSpanContextNotFound))
    eqn:Htraced.
  - apply bool_decide_eq_true in Htraced.
    assert (Hguard : bool_decide (err = fes.nil_error)
                     || bool_decide (err = ErrSpanContextNotFound) = true).
    { destruct Htraced as [->| ->].
      - now rewrite (bool_decide_eq_true_2 (fes.nil_error = _)) by reflexivity.
      - rewrite (bool_decide_eq_true_2
                   (ErrSpanContextNotFound = ErrSpanContextNotFound))
          by reflexivity.
        apply orb_true_r. }
    rewrite Hguard. cbn. eexists. repeat split; eauto.
  - apply bool_decide_eq_false in Htraced.
    rewrite !bool_decide_eq_false_2 by tauto. cbn.
    exists r. repeat split; reflexivity.
Qed.

End TracingProperties.
